(** * MineLang -> Python transpiler (mineLang.py): lexer, emitter, translator

    Shallow embedding of [lex], [Emitter] and [translate].

    Conventions of the model.
    - A Python [str] is a [string]; a character is a code point below 256
      and the [str] predicates ([isalpha], [isdigit], [isalnum], [isupper],
      [isspace]) follow Python's Unicode tables on that range.
    - [source[i:]] is the unread suffix of the source, so [advance()] moves
      to the tail of the suffix and [peek(k)] looks [k] characters into it.
    - Exceptions are values: [LexerError] and [ParseError] carry the data
      that the Python messages interpolate.
    - Python integers ([line], [col], [indent]) are [nat]: none of them is
      ever decremented below zero by the code. *)

From Stdlib Require Import Strings.String Strings.Ascii Lists.List.
From Stdlib Require Import Arith.Arith Bool.Bool Lia.
Import ListNotations.

Local Open Scope string_scope.
Local Open Scope nat_scope.
Local Open Scope list_scope.
Local Open Scope bool_scope.

(** ** Results *)

Inductive result (E A : Type) : Type :=
| Ok (a : A)
| Err (e : E).

Arguments Ok {E A} a.
Arguments Err {E A} e.

(** ** Characters *)

Definition nl : ascii := "010"%char.
Definition tab : ascii := "009"%char.
Definition cr : ascii := "013"%char.
Definition dquote : ascii := "034"%char.
Definition backslash : ascii := "092"%char.

Definition code (c : ascii) : nat := nat_of_ascii c.

Definition in_range (lo hi : nat) (c : ascii) : bool :=
  (lo <=? code c) && (code c <=? hi).

(** Upper-case code points below 256: A-Z, U+00C0-U+00D6, U+00D8-U+00DE. *)
Definition isupper_char (c : ascii) : bool :=
  in_range 65 90 c || in_range 192 214 c || in_range 216 222 c.

(** Lower-case code points below 256: a-z, U+00AA, U+00B5, U+00BA,
    U+00DF-U+00F6, U+00F8-U+00FF. *)
Definition islower_char (c : ascii) : bool :=
  in_range 97 122 c || (code c =? 170) || (code c =? 181) || (code c =? 186)
  || in_range 223 246 c || in_range 248 255 c.

(** [ch.isalpha()]: below 256 every letter is upper or lower case. *)
Definition isalpha (c : ascii) : bool := isupper_char c || islower_char c.

(** [ch.isdigit()]: 0-9 and the superscripts U+00B2, U+00B3, U+00B9. *)
Definition isdigit (c : ascii) : bool :=
  in_range 48 57 c || (code c =? 178) || (code c =? 179) || (code c =? 185).

(** [ch.isalnum()]: letters, digits and the fractions U+00BC-U+00BE. *)
Definition isalnum (c : ascii) : bool :=
  isalpha c || isdigit c || in_range 188 190 c.

(** [ch.isspace()]. *)
Definition isspace (c : ascii) : bool :=
  in_range 9 13 c || in_range 28 32 c || (code c =? 133) || (code c =? 160).

(** ** Strings *)

Definition chars (s : string) : list ascii := list_ascii_of_string s.
Definition str (l : list ascii) : string := string_of_list_ascii l.

Definition char_str (c : ascii) : string := String c EmptyString.

(** [ch in s] for a one-character [ch]. *)
Definition char_in (c : ascii) (s : string) : bool :=
  existsb (Ascii.eqb c) (chars s).

(** [x in S] for a set (or the keys of a dict) of strings. *)
Definition str_in (x : string) (S : list string) : bool :=
  existsb (String.eqb x) S.

(** [s.isupper()]: no lower-case character and at least one upper-case one. *)
Definition isupper (s : string) : bool :=
  forallb (fun c => negb (islower_char c)) (chars s)
  && existsb isupper_char (chars s).

(** [s.rstrip()]. *)
Fixpoint drop_while {A : Type} (p : A -> bool) (l : list A) : list A :=
  match l with
  | [] => []
  | x :: r => if p x then drop_while p r else l
  end.

Definition rstrip (s : string) : string :=
  str (rev (drop_while isspace (rev (chars s)))).

(** [s.strip()]. *)
Definition strip (s : string) : string :=
  str (drop_while isspace (chars (rstrip s))).

(** Truth value of a [str]. *)
Definition truthy (s : string) : bool :=
  match s with EmptyString => false | String _ _ => true end.

(** [s.endswith(suffix)]. *)
Definition endswith (s suffix : string) : bool :=
  (String.length suffix <=? String.length s)
  && String.eqb (substring (String.length s - String.length suffix)
                           (String.length suffix) s) suffix.

(** [" " * k]. *)
Fixpoint spaces (k : nat) : string :=
  match k with
  | 0 => EmptyString
  | S k' => String " " (spaces k')
  end.

(** [sep.join(l)] is [String.concat sep l]; [l[-1]] on a non-empty list. *)
Definition last_str (l : list string) : string := last l EmptyString.

(** ** Keyword table *)

Definition KEYWORDS_MAP : list (string * string) :=
  [ ("OPERACAO", "def");
    ("SE_RISCO", "if");
    ("SENAO_OPERADOR", "else");
    ("ENQUANTO_ESCANEANDO", "while");
    ("ALERTAR_EQUIPE", "print");
    ("MARCAR_AREA", "=");
    ("INTENSIFICAR", "+");
    ("DESATIVAR", "-");
    ("AMPLIFICAR", "*");
    ("DISTRIBUIR_RECURSOS", "/");
    ("RETORNAR_STATUS", "return") ].

(** [d.get(k, None)]. *)
Fixpoint dict_get (d : list (string * string)) (k : string) : option string :=
  match d with
  | [] => None
  | (k', v) :: r => if String.eqb k k' then Some v else dict_get r k
  end.

(** [k in d]. *)
Definition dict_mem (d : list (string * string)) (k : string) : bool :=
  str_in k (map fst d).

Definition HEADER_TOKENS : list string := ["def"; "if"; "else"; "while"].

Definition NEED_SPACE_AFTER : list string := ["def"; "return"; "if"; "while"].

Definition RELATIONALS : list string := ["=="; "!="; ">"; "<"; ">="; "<="].

Definition MULTI_CHAR_OPS : list string :=
  RELATIONALS ++ ["//"; "**"; "<<"; ">>"; "+="; "-="; "*="; "/="; "%="].

(** ** Tokens and errors *)

Record Token : Type := Tok {
  kind : string;
  value : string;
  line : nat;
  col : nat
}.

Inductive LexerError : Type :=
| UnclosedComment (start_l start_c : nat)
| UnclosedString (start_l start_c : nat)
| UnknownKeyword (ident : string) (start_l start_c : nat)
| InvalidChar (ch : ascii) (l c : nat).

(** What [lex] can raise: a [LexerError], or the [IndexError] of
    [source[i]] when [advance()] is called with [i = n]. *)
Inductive LexException : Type :=
| RaiseLexerError (e : LexerError)
| RaiseIndexError.

Inductive ParseError : Type :=
| UnmatchedClose
| UnclosedBlock
| UnexpectedToken (t : Token).

(** ** Lexer *)

(** State of the scanning loop: [source[i:]], [line], [col], [tokens]. *)
Record LexState : Type := LexSt {
  rest : string;
  cur_line : nat;
  cur_col : nat;
  tokens : list Token
}.

(** [peek(1)] seen from the tail [r] of [source[i:]]: the empty string past
    the end. *)
Definition peek (r : string) : string :=
  match r with
  | EmptyString => EmptyString
  | String c _ => char_str c
  end.

(** [advance()] on the suffix: [source[i]] raises [IndexError] at the end
    of the source. Where the loop has just read [ch = source[i]], the first
    [advance()] is the step from [String ch r] to [r]. *)
Definition advance (r : string) : result LexException string :=
  match r with
  | EmptyString => Err RaiseIndexError
  | String _ r' => Ok r'
  end.

(** [tokens.append(Token(kind, value, l, c))]. *)
Definition emit (tokens : list Token) (kind value : string) (l c : nat)
  : list Token :=
  tokens ++ [Tok kind value l c].

(** [while i < n and peek() != "\n": advance()]. *)
Fixpoint skip_line_comment (s : string) (col : nat) : string * nat :=
  match s with
  | EmptyString => (s, col)
  | String ch r =>
      if Ascii.eqb ch nl then (s, col) else skip_line_comment r (S col)
  end.

(** The [while True] loop of a block comment, after the two characters
    that open it; the comment started at [start_l], [start_c]. *)
Fixpoint skip_block_comment (s : string) (line col start_l start_c : nat)
  : result LexException (string * nat * nat) :=
  match s with
  | EmptyString => Err (RaiseLexerError (UnclosedComment start_l start_c))
  | String ch r =>
      if Ascii.eqb ch nl then skip_block_comment r (S line) 1 start_l start_c
      else if Ascii.eqb ch "*" && String.eqb (peek r) "/" then
        match advance r with
        | Err e => Err e
        | Ok r2 => Ok (r2, line, S (S col))
        end
      else skip_block_comment r line (S col) start_l start_c
  end.

(** The [while i < n] loop of a string literal, after the opening quote;
    [None] is the loop's [else] branch (end of input). *)
Fixpoint scan_string (s : string) (escaped : bool) (buf : string)
  (line col : nat) : option (string * string * nat * nat) :=
  match s with
  | EmptyString => None
  | String c r =>
      let buf' := (buf ++ char_str c)%string in
      let line' := if Ascii.eqb c nl then S line else line in
      let col' := if Ascii.eqb c nl then 1 else S col in
      if escaped then scan_string r false buf' line' col'
      else if Ascii.eqb c backslash then scan_string r true buf' line' col'
      else if Ascii.eqb c dquote then Some (buf', r, line', col')
      else scan_string r false buf' line' col'
  end.

(** Continuation of an identifier. *)
Fixpoint scan_ident (s : string) (buf : string) (col : nat)
  : string * string * nat :=
  match s with
  | EmptyString => (buf, s, col)
  | String c r =>
      if isalnum c || Ascii.eqb c "_"
      then scan_ident r (buf ++ char_str c)%string (S col)
      else (buf, s, col)
  end.

(** Continuation of a number. *)
Fixpoint scan_number (s : string) (is_float : bool) (buf : string) (col : nat)
  : string * string * nat :=
  match s with
  | EmptyString => (buf, s, col)
  | String c r =>
      if isdigit c || (Ascii.eqb c "." && negb is_float)
      then scan_number r (if Ascii.eqb c "." then true else is_float)
                       (buf ++ char_str c)%string (S col)
      else (buf, s, col)
  end.

(** The kind of a one-character symbol: the table's entry, or OP. *)
Definition symbol_kind (ch : ascii) : string :=
  if Ascii.eqb ch "{" then "LBRACE"
  else if Ascii.eqb ch "}" then "RBRACE"
  else if Ascii.eqb ch "(" then "LPAREN"
  else if Ascii.eqb ch ")" then "RPAREN"
  else if Ascii.eqb ch "[" then "LBRACK"
  else if Ascii.eqb ch "]" then "RBRACK"
  else if Ascii.eqb ch ";" then "SEMI"
  else if Ascii.eqb ch "," then "COMMA"
  else if Ascii.eqb ch "." then "DOT"
  else "OP".

(** Space, tab and carriage return. *)
Definition blanks : string := String " " (String tab (String cr EmptyString)).

(** The one-character symbols. *)
Definition symbols : string := "{}()[];.,:+-*/%<>=!&|^~".

(** One iteration of the main [while i < n] loop. *)
Definition lex_step (s : LexState) : result LexException LexState :=
  match rest s with
  | EmptyString => Ok s
  | String ch r =>
      let line := cur_line s in
      let col := cur_col s in
      let tokens := tokens s in
      if Ascii.eqb ch nl then
        Ok (LexSt r (S line) 1 (emit tokens "NEWLINE" (char_str nl) line col))
      else if char_in ch blanks then
        Ok (LexSt r line (S col) tokens)
      else if Ascii.eqb ch "#" then
        let '(r', col') := skip_line_comment (String ch r) col in
        Ok (LexSt r' line col' tokens)
      else if Ascii.eqb ch "/" && String.eqb (peek r) "*" then
        match advance r with
        | Err e => Err e
        | Ok r2 =>
            match skip_block_comment r2 line (S (S col)) line col with
            | Err e => Err e
            | Ok (r', line', col') => Ok (LexSt r' line' col' tokens)
            end
        end
      else if Ascii.eqb ch dquote then
        match scan_string r false (char_str ch) line (S col) with
        | None => Err (RaiseLexerError (UnclosedString line col))
        | Some (buf, r', line', col') =>
            Ok (LexSt r' line' col' (emit tokens "STRING" buf line col))
        end
      else if isalpha ch || Ascii.eqb ch "_" then
        let '(ident, r', col') := scan_ident r (char_str ch) (S col) in
        if isupper ident && negb (dict_mem KEYWORDS_MAP ident)
        then Err (RaiseLexerError (UnknownKeyword ident line col))
        else Ok (LexSt r' line col' (emit tokens "IDENT" ident line col))
      else if isdigit ch then
        let '(buf, r', col') := scan_number r false (char_str ch) (S col) in
        Ok (LexSt r' line col' (emit tokens "NUMBER" buf line col))
      else
        let two := String ch (peek r) in
        if str_in two MULTI_CHAR_OPS then
          match advance r with
          | Err e => Err e
          | Ok r2 =>
              Ok (LexSt r2 line (S (S col)) (emit tokens "OP" two line col))
          end
        else if char_in ch symbols then
          Ok (LexSt r line (S col)
                (emit tokens (symbol_kind ch) (char_str ch) line col))
        else Err (RaiseLexerError (InvalidChar ch line col))
  end.

(** The main loop; [fuel] bounds the number of iterations and [None] means
    the bound was too small ([lex_total] shows it never is). After the loop
    the final NEWLINE token is appended. *)
Fixpoint lex_loop (fuel : nat) (s : LexState)
  : option (result LexException (list Token)) :=
  match rest s with
  | EmptyString =>
      Some (Ok (tokens s ++ [Tok "NEWLINE" (char_str nl) (cur_line s) (cur_col s)]))
  | String _ _ =>
      match fuel with
      | 0 => None
      | S fuel' =>
          match lex_step s with
          | Err e => Some (Err e)
          | Ok s' => lex_loop fuel' s'
          end
      end
  end.

Definition lex_init (source : string) : LexState := LexSt source 1 1 [].

Definition lex (source : string)
  : option (result LexException (list Token)) :=
  lex_loop (String.length source) (lex_init source).

(** ** Emitter *)

Record Emitter : Type := MkEmitter {
  lines : list string;
  current : list string;
  indent : nat;
  need_indent : bool
}.

Definition Emitter_init : Emitter := MkEmitter [] [] 0 true.

Definition is_nil {A : Type} (l : list A) : bool :=
  match l with [] => true | _ :: _ => false end.

Definition _emit_indent_if_needed (e : Emitter) : Emitter :=
  if need_indent e
  then MkEmitter (lines e) (current e ++ [spaces (indent e * 4)]) (indent e) false
  else e.

Definition emit_text (e : Emitter) (text : string) : Emitter :=
  let e1 := _emit_indent_if_needed e in
  MkEmitter (lines e1) (current e1 ++ [text]) (indent e1) (need_indent e1).

Definition emit_space (e : Emitter) : Emitter :=
  let e1 := _emit_indent_if_needed e in
  if is_nil (current e1)
     || (negb (is_nil (current e1))
         && negb (endswith (last_str (current e1)) " "))
  then MkEmitter (lines e1) (current e1 ++ [" "]) (indent e1) (need_indent e1)
  else e1.

Definition newline (e : Emitter) : Emitter :=
  MkEmitter (lines e ++ [rstrip (String.concat EmptyString (current e))])
            [] (indent e) true.

Definition open_block (e : Emitter) : Emitter :=
  MkEmitter (lines e) (current e) (indent e + 1) (need_indent e).

Definition close_block (e : Emitter) : result ParseError Emitter :=
  match indent e with
  | 0 => Err UnmatchedClose
  | S k =>
      let e1 := MkEmitter (lines e) (current e) k (need_indent e) in
      if negb (is_nil (current e1))
         && truthy (strip (String.concat EmptyString (current e1)))
      then Ok (newline e1)
      else Ok e1
  end.

(** [while self.lines and self.lines[-1] == "": self.lines.pop()]. *)
Definition pop_blank_lines (l : list string) : list string :=
  rev (drop_while (String.eqb EmptyString) (rev l)).

(** [get_output] returns the text and leaves the emitter mutated. *)
Definition get_output (e : Emitter) : string * Emitter :=
  let e1 := if negb (is_nil (current e)) then newline e else e in
  let e2 := MkEmitter (pop_blank_lines (lines e1)) (current e1) (indent e1)
                      (need_indent e1) in
  ((String.concat (char_str nl) (lines e2) ++ char_str nl)%string, e2).

(** ** Translator *)

Record TransState : Type := MkTrans {
  out : Emitter;
  pending_header : bool;
  just_closed_brace : bool
}.

Definition trans_init : TransState := MkTrans Emitter_init false false.

Definition emit_mapped_ident (st : TransState) (value : string) : TransState :=
  match dict_get KEYWORDS_MAP value with
  | Some mapped =>
      if truthy mapped then
        let o1 := emit_text (out st) mapped in
        let o2 := if str_in mapped NEED_SPACE_AFTER then emit_space o1 else o1 in
        let ph := if str_in mapped HEADER_TOKENS then true
                  else pending_header st in
        MkTrans o2 ph (just_closed_brace st)
      else MkTrans (emit_text (out st) value) (pending_header st)
                   (just_closed_brace st)
  | None =>
      MkTrans (emit_text (out st) value) (pending_header st)
              (just_closed_brace st)
  end.

(** One iteration of the [while i < n] loop of [translate], on token [t]. *)
Definition translate_step (st : TransState) (t : Token)
  : result ParseError TransState :=
  if String.eqb (kind t) "NEWLINE" || String.eqb (kind t) "SEMI" then
    Ok (MkTrans (newline (out st)) (pending_header st) false)
  else if String.eqb (kind t) "LBRACE" then
    let o1 := if pending_header st then emit_text (out st) ":" else out st in
    let ph := if pending_header st then false else pending_header st in
    Ok (MkTrans (open_block (newline o1)) ph (just_closed_brace st))
  else if String.eqb (kind t) "RBRACE" then
    match close_block (out st) with
    | Err e => Err e
    | Ok o1 => Ok (MkTrans o1 (pending_header st) true)
    end
  else if str_in (kind t) ["STRING"; "NUMBER"] then
    Ok (MkTrans (emit_text (out st) (value t)) (pending_header st) false)
  else if String.eqb (kind t) "IDENT" then
    if String.eqb (value t) "SENAO_OPERADOR" && just_closed_brace st then
      let st1 := emit_mapped_ident st (value t) in
      Ok (MkTrans (out st1) true false)
    else
      let st1 := emit_mapped_ident st (value t) in
      Ok (MkTrans (out st1) (pending_header st1) false)
  else if String.eqb (kind t) "OP" then
    Ok (MkTrans (emit_text (out st) (value t)) (pending_header st) false)
  else if str_in (kind t)
            ["LPAREN"; "RPAREN"; "LBRACK"; "RBRACK"; "COMMA"; "DOT"] then
    Ok (MkTrans (emit_text (out st) (value t)) (pending_header st) false)
  else Err (UnexpectedToken t).

Fixpoint translate_loop (st : TransState) (tokens : list Token)
  : result ParseError TransState :=
  match tokens with
  | [] => Ok st
  | t :: r =>
      match translate_step st t with
      | Err e => Err e
      | Ok st1 => translate_loop st1 r
      end
  end.

Definition translate (tokens : list Token) : result ParseError string :=
  match translate_loop trans_init tokens with
  | Err e => Err e
  | Ok st =>
      let '(result, o) := get_output (out st) in
      if negb (indent o =? 0) then Err UnclosedBlock else Ok result
  end.

(** ** The pipeline of [main]: [lex] then [translate] *)

Inductive MineError : Type :=
| LexFailure (e : LexException)
| ParseFailure (e : ParseError).

Definition lex_then_translate (src : string)
  : option (result MineError string) :=
  match lex src with
  | None => None
  | Some (Err e) => Some (Err (LexFailure e))
  | Some (Ok tokens) =>
      match translate tokens with
      | Err e => Some (Err (ParseFailure e))
      | Ok py => Some (Ok py)
      end
  end.

(** * Vocabulary of the properties *)

(** Line and column reached from [(l, c)] after reading [s]: a newline
    starts the next line at column 1, any other character moves one column
    to the right. *)
Fixpoint pos_after (s : string) (l c : nat) : nat * nat :=
  match s with
  | EmptyString => (l, c)
  | String ch r =>
      if Ascii.eqb ch nl then pos_after r (S l) 1 else pos_after r l (S c)
  end.

(** A character that continues an identifier. *)
Definition ident_char (c : ascii) : bool := isalnum c || Ascii.eqb c "_".

(** The text [r] begins with a character that continues an identifier. *)
Definition starts_ident (r : string) : bool :=
  match r with
  | EmptyString => false
  | String c _ => ident_char c
  end.

(** A character that a number may hold. *)
Definition number_char (c : ascii) : bool := isdigit c || Ascii.eqb c ".".

(** The token kinds that [lex] emits. *)
Definition lexer_kinds : list string :=
  ["NEWLINE"; "SEMI"; "LBRACE"; "RBRACE"; "STRING"; "NUMBER"; "IDENT"; "OP";
   "LPAREN"; "RPAREN"; "LBRACK"; "RBRACK"; "COMMA"; "DOT"].

(** The token has one of these kinds: the loop of [translate] has a rule
    for it ([translate_step_spec]). *)
Definition known_kind (t : Token) : bool := str_in (kind t) lexer_kinds.

(** [lex_reaches s s']: the loop, started in state [s], is at the top of an
    iteration in state [s']. *)
Inductive lex_reaches : LexState -> LexState -> Prop :=
| reach_here (s : LexState) : lex_reaches s s
| reach_step (s s1 s2 : LexState) :
    rest s <> EmptyString -> lex_step s = Ok s1 -> lex_reaches s1 s2 ->
    lex_reaches s s2.

(** A finished line carries no trailing whitespace. *)
Definition rstripped (s : string) : bool :=
  match rev (chars s) with
  | [] => true
  | c :: _ => negb (isspace c)
  end.

(** Number of tokens of kind [k]. *)
Definition count_kind (k : string) (toks : list Token) : nat :=
  List.length (filter (fun t => String.eqb (kind t) k) toks).

(** Effect of one token on the depth; [None] is a [}] at depth zero. *)
Definition brace_step (d : nat) (t : Token) : option nat :=
  if String.eqb (kind t) "LBRACE" then Some (S d)
  else if String.eqb (kind t) "RBRACE" then
    match d with 0 => None | S d' => Some d' end
  else Some d.

(** Depth after the tokens [toks], from depth [d]. *)
Fixpoint brace_walk (d : nat) (toks : list Token) : option nat :=
  match toks with
  | [] => Some d
  | t :: r =>
      match brace_step d t with
      | None => None
      | Some d' => brace_walk d' r
      end
  end.

Ltac case_kind k s := destruct (String.eqb_spec k s) as [->|?].

Ltac kind_eval :=
  cbn [str_in existsb String.eqb Ascii.eqb Bool.eqb orb andb lexer_kinds kind].

(** Every [}] has an earlier [{] of its own, and there are as many [{] as
    [}]. *)
Definition braces_matched (toks : list Token) : Prop :=
  (forall pre post, toks = pre ++ post ->
     count_kind "RBRACE" pre <= count_kind "LBRACE" pre) /\
  count_kind "LBRACE" toks = count_kind "RBRACE" toks.

(** The longest prefix of [l] whose elements satisfy [p]. *)
Fixpoint take_while {A : Type} (p : A -> bool) (l : list A) : list A :=
  match l with
  | [] => []
  | x :: r => if p x then x :: take_while p r else []
  end.

(** Number of newline characters at the end of [s]. *)
Definition trailing_newlines (s : string) : nat :=
  List.length (take_while (Ascii.eqb nl) (rev (chars s))).

(** A line of whitespace only. *)
Definition blank (s : string) : bool := forallb isspace (chars s).

(** The [escaped] flag of the string loop after reading [s], from [esc]. *)
Fixpoint escaped_after (esc : bool) (s : string) : bool :=
  match s with
  | EmptyString => esc
  | String c r =>
      escaped_after (if esc then false else Ascii.eqb c backslash) r
  end.

(** No quote of [r] closes the literal: each one is read with [escaped]
    set. *)
Definition never_closes (esc : bool) (r : string) : Prop :=
  forall a b, r = (a ++ String dquote b)%string -> escaped_after esc a = true.

(** An identifier: a letter or underscore, then letters, digits and
    underscores. *)
Definition ident_shaped (ident : string) : bool :=
  match ident with
  | EmptyString => false
  | String ch r =>
      (isalpha ch || Ascii.eqb ch "_") && forallb ident_char (chars r)
  end.

(** The finished lines once the line under construction, if there is one,
    has been finished too: joined, stripped of trailing whitespace and put
    after the others. *)
Definition flushed_lines (e : Emitter) : list string :=
  if is_nil (current e) then lines e
  else lines e ++ [rstrip (String.concat EmptyString (current e))].

(** ** Vocabulary of the further properties *)

(** A STRING lexeme: at least two characters, the first and the last a
    quote. *)
Definition string_lexeme (v : string) : bool :=
  match chars v, rev (chars v) with
  | a :: _ :: _, b :: _ => Ascii.eqb a dquote && Ascii.eqb b dquote
  | _, _ => false
  end.

(** An IDENT lexeme: an identifier that is not upper-case unless it is a
    key of the keyword table. *)
Definition ident_lexeme (v : string) : bool :=
  ident_shaped v && (negb (isupper v) || dict_mem KEYWORDS_MAP v).

(** Number of decimal points. *)
Definition count_dots (v : string) : nat :=
  List.length (filter (fun c => Ascii.eqb c ".") (chars v)).

(** A NUMBER lexeme: a digit, then digits and at most one decimal point. *)
Definition number_lexeme (v : string) : bool :=
  match v with
  | EmptyString => false
  | String c r =>
      isdigit c && forallb number_char (chars r) && (count_dots r <=? 1)
  end.

(** A one-character symbol with the kind of the symbol table. *)
Definition symbol_lexeme (k v : string) : bool :=
  match v with
  | String ch EmptyString => char_in ch symbols && String.eqb k (symbol_kind ch)
  | _ => false
  end.

(** Kind and value of a token agree with one of the rules of [lex]. *)
Definition lexeme_ok (t : Token) : bool :=
  (String.eqb (kind t) "NEWLINE" && String.eqb (value t) (char_str nl))
  || (String.eqb (kind t) "STRING" && string_lexeme (value t))
  || (String.eqb (kind t) "IDENT" && ident_lexeme (value t))
  || (String.eqb (kind t) "NUMBER" && number_lexeme (value t))
  || (String.eqb (kind t) "OP" && (String.length (value t) =? 2)
      && str_in (value t) MULTI_CHAR_OPS)
  || symbol_lexeme (kind t) (value t).

(** The tokens [toks] stand in [src] in this order, each at the line and
    column it carries, counted from [(l, c)] at the start of [src]. *)
Fixpoint placed (src : string) (l c : nat) (toks : list Token) : Prop :=
  match toks with
  | [] => True
  | t :: r =>
      exists gap post,
        src = (gap ++ value t ++ post)%string /\
        (line t, col t) = pos_after gap l c /\
        placed post (fst (pos_after (gap ++ value t) l c))
                    (snd (pos_after (gap ++ value t) l c)) r
  end.

(** The state of the lexer loop once the literal made of a quote, [body]
    and a quote has been read at [s], with [rest0] left to read. *)
Definition after_literal (s : LexState) (body rest0 : string) : LexState :=
  LexSt rest0
        (fst (pos_after (String dquote (body ++ char_str dquote))
                        (cur_line s) (cur_col s)))
        (snd (pos_after (String dquote (body ++ char_str dquote))
                        (cur_line s) (cur_col s)))
        (tokens s ++ [Tok "STRING" (String dquote (body ++ char_str dquote))
                          (cur_line s) (cur_col s)]).

(** Line and column carried by a [LexerError]. *)
Definition lexer_error_pos (e : LexerError) : nat * nat :=
  match e with
  | UnclosedComment l c => (l, c)
  | UnclosedString l c => (l, c)
  | UnknownKeyword _ l c => (l, c)
  | InvalidChar _ l c => (l, c)
  end.

(** No rule of the lexer loop starts at the character [ch]. *)
Definition no_rule_for (ch : ascii) : bool :=
  negb (Ascii.eqb ch nl) && negb (char_in ch blanks)
  && negb (Ascii.eqb ch "#") && negb (Ascii.eqb ch dquote)
  && negb (isalpha ch) && negb (Ascii.eqb ch "_") && negb (isdigit ch)
  && negb (char_in ch symbols).

(** The two characters that close a block comment stand nowhere in [r]. *)
Definition no_comment_close (r : string) : Prop :=
  forall a b, r <> (a ++ "*/" ++ b)%string.

(** The text [post] at which the error [e] is raised: a block comment that
    nothing closes, a string that no quote closes, an upper-case identifier
    (taken up to its end) that is no key of the keyword table, or a
    character for which the loop has no rule. *)
Definition lexer_error_text (e : LexerError) (post : string) : Prop :=
  match e with
  | UnclosedComment _ _ =>
      exists r, post = ("/*" ++ r)%string /\ no_comment_close r
  | UnclosedString _ _ =>
      exists r, post = String dquote r /\ never_closes false r
  | UnknownKeyword ident _ _ =>
      exists r, post = (ident ++ r)%string /\ ident_shaped ident = true /\
                starts_ident r = false /\ isupper ident = true /\
                dict_mem KEYWORDS_MAP ident = false
  | InvalidChar ch _ _ =>
      exists r, post = String ch r /\ no_rule_for ch = true
  end.

(** The one-character symbols that have a kind of their own. *)
Definition table_symbols : list string :=
  ["{"; "}"; "("; ")"; "["; "]"; ";"; ","; "."].

(** The text holds no newline. *)
Definition no_newline (body : string) : bool :=
  forallb (fun c => negb (Ascii.eqb c nl)) (chars body).

(** The end of a line: the end of the source or a newline. *)
Definition at_line_end (r : string) : bool :=
  match r with
  | EmptyString => true
  | String c _ => Ascii.eqb c nl
  end.

(** The two characters that close a block comment do not stand in
    [body], nor across its end. *)
Definition no_comment_end (body : string) : Prop :=
  forall a b, (body ++ "*")%string <> (a ++ "*/" ++ b)%string.

(** A source of spaces, tabs, carriage returns and newlines only. *)
Definition blank_source (s : string) : bool :=
  forallb (fun c => char_in c blanks || Ascii.eqb c nl) (chars s).

(** A NEWLINE token. *)
Definition is_newline_token (t : Token) : bool := String.eqb (kind t) "NEWLINE".

(** A token that [translate] copies to the output as it is: a string, a
    number, an operator, a bracket, a comma, a dot, or an identifier that is
    no key of the keyword table. *)
Definition plain_token (t : Token) : bool :=
  str_in (kind t)
         ["STRING"; "NUMBER"; "OP"; "LPAREN"; "RPAREN"; "LBRACK"; "RBRACK";
          "COMMA"; "DOT"]
  || (String.eqb (kind t) "IDENT" && negb (dict_mem KEYWORDS_MAP (value t))).

(** A text that starts with a character that is not whitespace. *)
Definition solid (v : string) : bool :=
  match v with
  | EmptyString => false
  | String c _ => negb (isspace c)
  end.

(** The kinds that [translate] turns into line breaks and depth changes. *)
Definition layout_kind (t : Token) : bool :=
  str_in (kind t) ["NEWLINE"; "SEMI"; "LBRACE"; "RBRACE"].

(** A layout token, or a token whose value is solid. *)
Definition solid_token (t : Token) : bool := layout_kind t || solid (value t).

(** The line under construction is empty and not yet indented, or it is the
    indentation of the current depth followed by solid text. *)
Definition line_started (e : Emitter) : Prop :=
  (need_indent e = true /\ current e = []) \/
  (need_indent e = false /\
   exists texts, current e = spaces (indent e * 4) :: texts /\
                 solid (String.concat EmptyString texts) = true).

(** A finished line: empty, or [depth] times four spaces and solid text. *)
Definition indented_line (depth : nat) (x : string) : Prop :=
  x = EmptyString \/
  exists body, x = (spaces (depth * 4) ++ body)%string /\ solid body = true.

(** ** Inputs of the scenarios *)

(** The [soma] function of C1, its translation, and the text with the
    blanks of the source kept. *)
Definition soma_source : string :=
  "OPERACAO soma(a, b) { RETORNAR_STATUS a INTENSIFICAR b }".

Definition soma_python : string :=
  ("def soma(a,b):" ++ char_str nl ++ "    return a+b" ++ char_str nl)%string.

Definition soma_python_spaced : string :=
  ("def soma(a, b):" ++ char_str nl ++ "    return a + b" ++ char_str nl)%string.

(** The tokens of the source [OPERACAO]. *)
Definition header_only : list Token :=
  [Tok "IDENT" "OPERACAO" 1 1; Tok "NEWLINE" (char_str nl) 1 9].

(** The tokens of the source [SENAO_OPERADOR { }]. *)
Definition lone_else : list Token :=
  [Tok "IDENT" "SENAO_OPERADOR" 1 1; Tok "LBRACE" "{" 1 16;
   Tok "RBRACE" "}" 1 18; Tok "NEWLINE" (char_str nl) 1 19].

(** Two nested blocks. *)
Definition nested_blocks : list Token :=
  [Tok "LBRACE" "{" 1 1; Tok "IDENT" "x" 1 2; Tok "LBRACE" "{" 1 3;
   Tok "RBRACE" "}" 1 4; Tok "RBRACE" "}" 1 5].

(** The source text: a quote, [a], a backslash, a quote, [b], a quote. *)
Definition escaped_literal : string :=
  String dquote (String "a" (String backslash
    (String dquote (String "b" (char_str dquote))))).

Definition escaped_literal_tokens : list Token :=
  [Tok "STRING" escaped_literal 1 1; Tok "NEWLINE" (char_str nl) 1 7].

(** A line [x], an empty line, and a line [y] that no NEWLINE ends. *)
Definition unfinished_line : list Token :=
  [Tok "IDENT" "x" 1 1; Tok "NEWLINE" (char_str nl) 1 2;
   Tok "NEWLINE" (char_str nl) 2 1; Tok "IDENT" "y" 3 1].

(** A literal holding a raw newline between [a] and [b]. *)
Definition newline_body : string := String "a" (String nl (String "b" EmptyString)).

(** The misspelt keyword [FOO] on the second line of a source. *)
Definition foo_prefix : string := String "x" (String nl "  ").

Definition foo_source : string := (foo_prefix ++ "FOO" ++ "(")%string.

Definition foo_state : LexState :=
  LexSt "FOO(" 2 3 [Tok "IDENT" "x" 1 1; Tok "NEWLINE" (char_str nl) 1 2].

(** * Properties *)

(** ** Strings *)

Lemma append_nil_r (s : string) : (s ++ EmptyString)%string = s.
Proof. induction s; simpl; congruence. Qed.

Lemma append_assoc (a b c : string) :
  ((a ++ b) ++ c)%string = (a ++ (b ++ c))%string.
Proof. induction a; simpl; congruence. Qed.

Lemma append_snoc (a b : string) (c : ascii) :
  ((a ++ char_str c) ++ b)%string = (a ++ String c b)%string.
Proof. rewrite append_assoc. reflexivity. Qed.

Lemma length_append (a b : string) :
  String.length (a ++ b) = String.length a + String.length b.
Proof. induction a; simpl; congruence. Qed.

Lemma chars_append (a b : string) : chars (a ++ b) = chars a ++ chars b.
Proof. unfold chars. induction a; simpl; congruence. Qed.

Lemma str_chars (s : string) : str (chars s) = s.
Proof. apply string_of_list_ascii_of_string. Qed.

Lemma chars_str (l : list ascii) : chars (str l) = l.
Proof. apply list_ascii_of_string_of_list_ascii. Qed.

Lemma append_inv_tail (a b r : string) :
  (a ++ r)%string = (b ++ r)%string -> a = b.
Proof.
  intros H. apply (f_equal chars) in H. rewrite !chars_append in H.
  apply app_inv_tail in H.
  rewrite <- (str_chars a), <- (str_chars b). congruence.
Qed.

(** ** Positions *)

Lemma pos_after_app (a b : string) (l c : nat) :
  pos_after (a ++ b) l c =
  pos_after b (fst (pos_after a l c)) (snd (pos_after a l c)).
Proof.
  revert l c. induction a as [|ch a IH]; intros l c; simpl.
  - reflexivity.
  - destruct (Ascii.eqb ch nl); apply IH.
Qed.

(** ** The scanners consume a prefix of the input *)

Lemma ident_char_not_nl (c : ascii) :
  ident_char c = true -> Ascii.eqb c nl = false.
Proof.
  intros H. destruct (Ascii.eqb_spec c nl) as [->|]; [|reflexivity].
  vm_compute in H. discriminate.
Qed.

Lemma skip_line_comment_spec (s : string) (col : nat) :
  exists pre,
    s = (pre ++ fst (skip_line_comment s col))%string /\
    forall l, pos_after pre l col = (l, snd (skip_line_comment s col)).
Proof.
  revert col. induction s as [|ch r IH]; intros col; simpl.
  - exists EmptyString. split; reflexivity.
  - destruct (Ascii.eqb ch nl) eqn:E.
    + exists EmptyString. split; reflexivity.
    + destruct (IH (S col)) as [pre [H1 H2]].
      exists (String ch pre). split.
      * simpl. congruence.
      * intros l. simpl. rewrite E. apply H2.
Qed.

Lemma peek_eq (r : string) (c : ascii) :
  String.eqb (peek r) (char_str c) = true -> exists r2, r = String c r2.
Proof.
  destruct r as [|c2 r2]; intros H.
  - discriminate.
  - change (peek (String c2 r2)) with (char_str c2) in H.
    apply String.eqb_eq in H. injection H as ->. eauto.
Qed.

Lemma skip_block_comment_spec (s : string) (l c sl sc : nat) r' l' c' :
  skip_block_comment s l c sl sc = Ok (r', l', c') ->
  exists pre, s = (pre ++ r')%string /\ pos_after pre l c = (l', c').
Proof.
  revert l c. induction s as [|ch r IH]; intros l c; simpl.
  - discriminate.
  - destruct (Ascii.eqb ch nl) eqn:E.
    + intros H. destruct (IH _ _ H) as [pre [H1 H2]].
      exists (String ch pre). simpl. rewrite E. split; congruence.
    + destruct (Ascii.eqb ch "*" && String.eqb (peek r) "/") eqn:E2.
      * apply andb_prop in E2. destruct E2 as [_ E2].
        apply (peek_eq r "/") in E2. destruct E2 as [r2 ->]. simpl.
        intros H. injection H as <- <- <-.
        exists (String ch (String "/" EmptyString)). simpl. rewrite E.
        split; reflexivity.
      * intros H. destruct (IH _ _ H) as [pre [H1 H2]].
        exists (String ch pre). simpl. rewrite E. split; congruence.
Qed.

Lemma scan_string_spec (s : string) (esc : bool) (buf : string) (l c : nat)
  buf' r' l' c' :
  scan_string s esc buf l c = Some (buf', r', l', c') ->
  exists pre,
    s = (pre ++ r')%string /\ buf' = (buf ++ pre)%string /\
    pre <> EmptyString /\ pos_after pre l c = (l', c').
Proof.
  revert esc buf l c.
  induction s as [|ch r IH]; intros esc buf l c; simpl; [discriminate|].
  assert (Hgo : forall e,
    scan_string r e (buf ++ char_str ch)
      (if Ascii.eqb ch nl then S l else l)
      (if Ascii.eqb ch nl then 1 else S c) = Some (buf', r', l', c') ->
    exists pre,
      String ch r = (pre ++ r')%string /\ buf' = (buf ++ pre)%string /\
      pre <> EmptyString /\ pos_after pre l c = (l', c')).
  { intros e H. destruct (IH _ _ _ _ H) as [pre [H1 [H2 [_ H4]]]].
    exists (String ch pre). simpl. repeat split.
    - congruence.
    - rewrite H2. apply append_snoc.
    - discriminate.
    - destruct (Ascii.eqb ch nl); exact H4. }
  destruct esc; [apply Hgo|].
  destruct (Ascii.eqb ch backslash); [apply Hgo|].
  destruct (Ascii.eqb ch dquote) eqn:Eq; [|apply Hgo].
  intros H. injection H as <- <- <- <-.
  exists (char_str ch). simpl. repeat split.
  - discriminate.
  - destruct (Ascii.eqb ch nl); reflexivity.
Qed.

Lemma scan_ident_app (pre r0 buf : string) (col : nat) :
  forallb ident_char (chars pre) = true ->
  starts_ident r0 = false ->
  scan_ident (pre ++ r0) buf col =
  ((buf ++ pre)%string, r0, col + String.length pre).
Proof.
  revert buf col. induction pre as [|ch pre IH]; intros buf col Hall Hend.
  - simpl. rewrite append_nil_r, Nat.add_0_r.
    destruct r0 as [|c r]; simpl in *; [reflexivity|].
    unfold ident_char in Hend. rewrite Hend. reflexivity.
  - simpl in Hall. apply andb_prop in Hall. destruct Hall as [Hc Hall].
    simpl. unfold ident_char in Hc. rewrite Hc.
    rewrite (IH _ _ Hall Hend). rewrite append_snoc.
    simpl. f_equal. lia.
Qed.

Lemma scan_ident_spec (s buf : string) (col : nat) :
  exists pre,
    s = (pre ++ snd (fst (scan_ident s buf col)))%string /\
    fst (fst (scan_ident s buf col)) = (buf ++ pre)%string /\
    snd (scan_ident s buf col) = col + String.length pre /\
    forallb ident_char (chars pre) = true /\
    starts_ident (snd (fst (scan_ident s buf col))) = false.
Proof.
  revert buf col. induction s as [|ch r IH]; intros buf col.
  - exists EmptyString. simpl. rewrite append_nil_r. auto.
  - simpl. destruct (isalnum ch || Ascii.eqb ch "_") eqn:E.
    + destruct (IH (buf ++ char_str ch)%string (S col))
        as [pre [H1 [H2 [H3 [H4 H5]]]]].
      exists (String ch pre). simpl. repeat split.
      * congruence.
      * rewrite H2. apply append_snoc.
      * rewrite H3. lia.
      * unfold ident_char at 1. rewrite E. exact H4.
      * exact H5.
    + exists EmptyString. simpl. rewrite append_nil_r, Nat.add_0_r.
      repeat split. exact E.
Qed.

Lemma pos_after_no_nl (pre : string) (p : ascii -> bool) (l c : nat) :
  (forall ch, p ch = true -> Ascii.eqb ch nl = false) ->
  forallb p (chars pre) = true ->
  pos_after pre l c = (l, c + String.length pre).
Proof.
  intros Hp. revert c. induction pre as [|ch pre IH]; intros c Hall; simpl.
  - f_equal. lia.
  - simpl in Hall. apply andb_prop in Hall. destruct Hall as [Hc Hall].
    rewrite (Hp _ Hc), (IH _ Hall). f_equal. lia.
Qed.

Lemma scan_number_spec (s : string) (fl : bool) (buf : string) (col : nat) :
  exists pre,
    s = (pre ++ snd (fst (scan_number s fl buf col)))%string /\
    fst (fst (scan_number s fl buf col)) = (buf ++ pre)%string /\
    snd (scan_number s fl buf col) = col + String.length pre /\
    forallb number_char (chars pre) = true.
Proof.
  revert fl buf col. induction s as [|ch r IH]; intros fl buf col.
  - exists EmptyString. simpl. rewrite append_nil_r. auto.
  - simpl. destruct (isdigit ch || Ascii.eqb ch "." && negb fl) eqn:E.
    + destruct (IH (if Ascii.eqb ch "." then true else fl)
                   (buf ++ char_str ch)%string (S col))
        as [pre [H1 [H2 [H3 H4]]]].
      exists (String ch pre). simpl. repeat split.
      * congruence.
      * rewrite H2. apply append_snoc.
      * rewrite H3. lia.
      * rewrite H4, andb_true_r. unfold number_char.
        destruct (isdigit ch); [reflexivity|]. simpl in E.
        apply andb_prop in E. apply E.
    + exists EmptyString. simpl. rewrite append_nil_r, Nat.add_0_r. auto.
Qed.

Lemma number_char_nl (c : ascii) :
  number_char c = true -> Ascii.eqb c nl = false.
Proof.
  intros H. destruct (Ascii.eqb_spec c nl) as [->|]; [|reflexivity].
  vm_compute in H. discriminate.
Qed.

(** ** Token kinds *)

Lemma symbol_kind_known (ch : ascii) (v : string) (l c : nat) :
  known_kind (Tok (symbol_kind ch) v l c) = true.
Proof.
  unfold known_kind, symbol_kind. simpl kind.
  repeat match goal with
         | |- context [Ascii.eqb ch ?x] => destruct (Ascii.eqb ch x)
         end; reflexivity.
Qed.

Lemma two_char_op_no_nl (ch c2 : ascii) :
  str_in (String ch (char_str c2)) MULTI_CHAR_OPS = true ->
  Ascii.eqb c2 nl = false.
Proof.
  intros H. destruct (Ascii.eqb_spec c2 nl) as [->|]; [|reflexivity].
  unfold str_in, MULTI_CHAR_OPS, RELATIONALS, char_str in H. cbn in H.
  repeat match type of H with
         | context [Ascii.eqb ch ?x] => destruct (Ascii.eqb ch x)
         end; discriminate.
Qed.

(** ** One iteration of the lexer loop *)

Lemma lex_step_spec (s s' : LexState) :
  rest s <> EmptyString -> lex_step s = Ok s' ->
  exists pre new,
    pre <> EmptyString /\ rest s = (pre ++ rest s')%string /\
    pos_after pre (cur_line s) (cur_col s) = (cur_line s', cur_col s') /\
    tokens s' = tokens s ++ new /\ forallb known_kind new = true.
Proof.
  destruct s as [src l c toks]. simpl. intros Hne.
  destruct src as [|ch r]; [congruence|]. clear Hne.
  unfold lex_step. cbn [rest cur_line cur_col tokens]. cbv beta iota zeta.
  destruct (Ascii.eqb ch nl) eqn:Enl.
  { intros H. injection H as <-. eexists (char_str ch), [_]. simpl.
    rewrite Enl. repeat split. discriminate. }
  destruct (char_in ch blanks).
  { intros H. injection H as <-. exists (char_str ch), []. simpl.
    rewrite Enl, app_nil_r. repeat split. discriminate. }
  destruct (Ascii.eqb ch "#").
  { simpl skip_line_comment. rewrite Enl.
    destruct (skip_line_comment_spec r (S c)) as [pre [H1 H2]].
    destruct (skip_line_comment r (S c)) as [r' col']. simpl in H1, H2.
    intros H. injection H as <-. exists (String ch pre), []. simpl.
    rewrite Enl, app_nil_r, H2. repeat split; [discriminate|congruence]. }
  destruct (Ascii.eqb ch "/" && String.eqb (peek r) "*") eqn:Ecom.
  { apply andb_prop in Ecom. destruct Ecom as [_ Ecom].
    apply (peek_eq r "*") in Ecom. destruct Ecom as [r2 ->]. unfold advance.
    destruct (skip_block_comment r2 l (S (S c)) l c) as [[[r' l'] c']|e] eqn:E;
      [|intros H; discriminate H].
    apply skip_block_comment_spec in E. destruct E as [pre [H1 H2]].
    intros H. injection H as <-. exists (String ch (String "*" pre)), [].
    simpl. rewrite Enl, app_nil_r. repeat split; [discriminate|congruence|exact H2]. }
  destruct (Ascii.eqb ch dquote).
  { destruct (scan_string r false (char_str ch) l (S c))
      as [[[[buf r'] l'] c']|] eqn:E; [|intros H; discriminate H].
    apply scan_string_spec in E. destruct E as [pre [H1 [H2 [_ H4]]]].
    intros H. injection H as <-. eexists (String ch pre), [_].
    simpl. rewrite Enl. repeat split; [discriminate|congruence|exact H4]. }
  destruct (isalpha ch || Ascii.eqb ch "_").
  { destruct (scan_ident_spec r (char_str ch) (S c))
      as [pre [H1 [H2 [H3 [H4 H5]]]]].
    destruct (scan_ident r (char_str ch) (S c)) as [[ident r'] col'].
    simpl in H1, H2, H3, H5.
    destruct (isupper ident && negb (dict_mem KEYWORDS_MAP ident));
      [intros H; discriminate H|].
    intros H. injection H as <-. eexists (String ch pre), [_].
    simpl. rewrite Enl.
    rewrite (pos_after_no_nl pre ident_char l (S c) ident_char_not_nl H4).
    repeat split; [discriminate|congruence|f_equal; lia]. }
  destruct (isdigit ch).
  { destruct (scan_number_spec r false (char_str ch) (S c))
      as [pre [H1 [H2 [H3 H4]]]].
    destruct (scan_number r false (char_str ch) (S c)) as [[buf r'] col'].
    simpl in H1, H2, H3.
    intros H. injection H as <-. eexists (String ch pre), [_].
    simpl. rewrite Enl.
    rewrite (pos_after_no_nl pre number_char l (S c) number_char_nl H4).
    repeat split; [discriminate|congruence|f_equal; lia]. }
  destruct (str_in (String ch (peek r)) MULTI_CHAR_OPS) eqn:Eop.
  { destruct r as [|c2 r2]; unfold advance; [intros H; discriminate H|].
    change (peek (String c2 r2)) with (char_str c2) in Eop.
    apply two_char_op_no_nl in Eop.
    intros H. injection H as <-. eexists (String ch (char_str c2)), [_].
    simpl. rewrite Enl, Eop. repeat split. discriminate. }
  destruct (char_in ch symbols); [|intros H; discriminate H].
  intros H. injection H as <-. eexists (char_str ch), [_].
  simpl. rewrite Enl. repeat split; [discriminate|].
  rewrite symbol_kind_known. reflexivity.
Qed.

(** ** The lexer loop *)

Lemma lex_step_shorter (s s' : LexState) :
  rest s <> EmptyString -> lex_step s = Ok s' ->
  String.length (rest s') < String.length (rest s).
Proof.
  intros Hne H. destruct (lex_step_spec s s' Hne H) as [pre [new [Hp [Hr _]]]].
  rewrite Hr, length_append. destruct pre; [congruence|simpl; lia].
Qed.

Lemma lex_loop_fuel (f1 f2 : nat) (s : LexState) :
  String.length (rest s) <= f1 -> String.length (rest s) <= f2 ->
  lex_loop f1 s = lex_loop f2 s.
Proof.
  revert f2 s. induction f1 as [|f1 IH]; intros f2 s H1 H2.
  - destruct s as [r l c t]. simpl in *. destruct r; simpl in *; [|lia].
    destruct f2; reflexivity.
  - destruct s as [r l c t]. destruct r as [|ch r].
    + destruct f2; reflexivity.
    + destruct f2 as [|f2]; [simpl in H2; lia|].
      simpl lex_loop.
      destruct (lex_step (LexSt (String ch r) l c t)) as [s'|e] eqn:E;
        [|reflexivity].
      apply lex_step_shorter in E; [|discriminate].
      simpl in E, H1, H2. apply IH; lia.
Qed.

(** The fuel given by [lex] is always enough: the lexer terminates. *)
Lemma lex_loop_total (f : nat) (s : LexState) :
  String.length (rest s) <= f -> exists r, lex_loop f s = Some r.
Proof.
  revert s. induction f as [|f IH]; intros s Hf.
  - destruct s as [r l c t]. destruct r; simpl in *; [eauto|lia].
  - destruct s as [r l c t]. destruct r as [|ch r]; [simpl; eauto|].
    simpl lex_loop.
    destruct (lex_step (LexSt (String ch r) l c t)) as [s'|e] eqn:E;
      [|eauto].
    apply lex_step_shorter in E; [|discriminate].
    simpl in E, Hf. apply IH. lia.
Qed.

Lemma lex_total (source : string) : exists r, lex source = Some r.
Proof. apply lex_loop_total. simpl. lia. Qed.

Lemma lex_reaches_loop (s s' : LexState) :
  lex_reaches s s' ->
  lex_loop (String.length (rest s)) s = lex_loop (String.length (rest s')) s'.
Proof.
  induction 1 as [s|s s1 s2 Hne Hstep Hreach IH]; [reflexivity|].
  rewrite <- IH. pose proof (lex_step_shorter s s1 Hne Hstep) as Hlt.
  destruct s as [r l c t]. destruct r as [|ch r]; [simpl in Hne; congruence|].
  simpl in Hlt. simpl String.length. simpl lex_loop. rewrite Hstep.
  apply lex_loop_fuel; lia.
Qed.

Lemma lex_reaches_inv (s s' : LexState) :
  lex_reaches s s' ->
  exists pre new,
    rest s = (pre ++ rest s')%string /\
    pos_after pre (cur_line s) (cur_col s) = (cur_line s', cur_col s') /\
    tokens s' = tokens s ++ new /\ forallb known_kind new = true.
Proof.
  induction 1 as [s|s s1 s2 Hne Hstep Hreach IH].
  - exists EmptyString, []. simpl. rewrite app_nil_r. auto.
  - destruct (lex_step_spec s s1 Hne Hstep)
      as [p1 [n1 [_ [Hr1 [Hp1 [Ht1 Hk1]]]]]].
    destruct IH as [p2 [n2 [Hr2 [Hp2 [Ht2 Hk2]]]]].
    exists (p1 ++ p2)%string, (n1 ++ n2). repeat split.
    + rewrite Hr1, Hr2. symmetry. apply append_assoc.
    + rewrite pos_after_app, Hp1. exact Hp2.
    + rewrite Ht2, Ht1. symmetry. apply app_assoc.
    + rewrite forallb_app, Hk1, Hk2. reflexivity.
Qed.

Lemma lex_loop_known (f : nat) (s : LexState) (toks : list Token) :
  forallb known_kind (tokens s) = true ->
  lex_loop f s = Some (Ok toks) ->
  forallb known_kind toks = true.
Proof.
  revert s. induction f as [|f IH]; intros s Hk H;
    destruct s as [r l c t]; destruct r as [|ch r]; simpl in H.
  - injection H as <-. simpl in Hk. rewrite forallb_app, Hk. reflexivity.
  - discriminate.
  - injection H as <-. simpl in Hk. rewrite forallb_app, Hk. reflexivity.
  - destruct (lex_step (LexSt (String ch r) l c t)) as [s'|e] eqn:E;
      [|discriminate].
    apply (IH s'); [|exact H].
    apply lex_step_spec in E; [|discriminate].
    destruct E as [pre [new [_ [_ [_ [Ht Hn]]]]]].
    rewrite Ht, forallb_app, Hk, Hn. reflexivity.
Qed.

(** ** Emitter: indentation depth and finished lines *)

Lemma drop_while_head {A : Type} (p : A -> bool) (l : list A) :
  match drop_while p l with
  | [] => True
  | x :: _ => p x = false
  end.
Proof.
  induction l as [|x l IH]; simpl; [exact I|].
  destruct (p x) eqn:E; [exact IH|exact E].
Qed.

Lemma drop_while_suffix {A : Type} (p : A -> bool) (l : list A) :
  exists pre, l = pre ++ drop_while p l.
Proof.
  induction l as [|x l [pre IH]]; simpl.
  - exists []. reflexivity.
  - destruct (p x).
    + exists (x :: pre). simpl. congruence.
    + exists []. reflexivity.
Qed.

Lemma rstrip_rstripped (s : string) : rstripped (rstrip s) = true.
Proof.
  unfold rstripped, rstrip. rewrite chars_str, rev_involutive.
  pose proof (drop_while_head isspace (rev (chars s))) as H.
  destruct (drop_while isspace (rev (chars s))); [reflexivity|].
  rewrite H. reflexivity.
Qed.

Lemma emit_indent_if_needed_same (e : Emitter) :
  indent (_emit_indent_if_needed e) = indent e /\
  lines (_emit_indent_if_needed e) = lines e.
Proof. unfold _emit_indent_if_needed. destruct (need_indent e); auto. Qed.

Lemma emit_text_same (e : Emitter) (text : string) :
  indent (emit_text e text) = indent e /\ lines (emit_text e text) = lines e.
Proof. unfold emit_text. simpl. apply emit_indent_if_needed_same. Qed.

Lemma emit_space_same (e : Emitter) :
  indent (emit_space e) = indent e /\ lines (emit_space e) = lines e.
Proof.
  unfold emit_space.
  destruct (is_nil (current (_emit_indent_if_needed e))
            || negb (is_nil (current (_emit_indent_if_needed e)))
               && negb (endswith (last_str (current (_emit_indent_if_needed e)))
                                 " "));
    simpl; apply emit_indent_if_needed_same.
Qed.

Lemma emit_mapped_ident_same (st : TransState) (v : string) :
  indent (out (emit_mapped_ident st v)) = indent (out st) /\
  lines (out (emit_mapped_ident st v)) = lines (out st).
Proof.
  unfold emit_mapped_ident.
  destruct (dict_get KEYWORDS_MAP v) as [m|]; [|apply emit_text_same].
  destruct (truthy m); [|apply emit_text_same]. cbn [out].
  destruct (str_in m NEED_SPACE_AFTER); [|apply emit_text_same].
  destruct (emit_space_same (emit_text (out st) m)) as [H1 H2].
  destruct (emit_text_same (out st) m) as [H3 H4]. split; congruence.
Qed.

(** ** One iteration of the translation loop *)

Lemma translate_step_spec (st : TransState) (t : Token) :
  match translate_step st t with
  | Ok st' =>
      known_kind t = true /\
      brace_step (indent (out st)) t = Some (indent (out st')) /\
      exists new,
        lines (out st') = lines (out st) ++ new /\
        forallb rstripped new = true
  | Err e =>
      (known_kind t = false /\ e = UnexpectedToken t) \/
      (kind t = "RBRACE" /\ indent (out st) = 0 /\ e = UnmatchedClose)
  end.
Proof.
  destruct t as [k v l c]. unfold translate_step, known_kind, brace_step.
  cbn [kind value str_in existsb lexer_kinds].
  assert (Htext : forall x,
            Some (indent (out st)) = Some (indent (emit_text (out st) x)) /\
            exists new, lines (emit_text (out st) x) = lines (out st) ++ new /\
                        forallb rstripped new = true).
  { intros x. destruct (emit_text_same (out st) x) as [H1 H2].
    split; [congruence|]. exists []. rewrite app_nil_r. auto. }
  assert (Hnl : forall e : Emitter, lines e = lines (out st) ->
            exists new, lines (newline e) = lines (out st) ++ new /\
                        forallb rstripped new = true).
  { intros e He. eexists [_]. simpl. rewrite He. split; [reflexivity|].
    rewrite rstrip_rstripped. reflexivity. }
  case_kind k "NEWLINE".
  { simpl. repeat split. apply Hnl. reflexivity. }
  case_kind k "SEMI".
  { simpl. repeat split. apply Hnl. reflexivity. }
  case_kind k "LBRACE".
  { simpl. repeat split.
    - f_equal. destruct (pending_header st); simpl; [|lia].
      destruct (emit_indent_if_needed_same (out st)) as [H _]. rewrite H. lia.
    - cbn [open_block out lines].
      apply Hnl. destruct (pending_header st); [|reflexivity].
      apply emit_text_same. }
  case_kind k "RBRACE".
  { simpl. unfold close_block. destruct (indent (out st)) as [|d] eqn:Ed.
    - right. auto.
    - match goal with
      | |- context [if ?b then _ else _] => destruct b
      end; simpl; repeat split.
      + apply Hnl. reflexivity.
      + exists []. rewrite app_nil_r. auto. }
  case_kind k "STRING". { kind_eval. split; [reflexivity|]. apply Htext. }
  case_kind k "NUMBER". { kind_eval. split; [reflexivity|]. apply Htext. }
  case_kind k "IDENT".
  { kind_eval.
    destruct (emit_mapped_ident_same st v) as [H1 H2].
    destruct (String.eqb v "SENAO_OPERADOR" && just_closed_brace st);
      cbn [out]; (split; [reflexivity|]); (split; [congruence|]);
      exists []; rewrite app_nil_r; auto. }
  case_kind k "OP". { kind_eval. split; [reflexivity|]. apply Htext. }
  case_kind k "LPAREN". { kind_eval. split; [reflexivity|]. apply Htext. }
  case_kind k "RPAREN". { kind_eval. split; [reflexivity|]. apply Htext. }
  case_kind k "LBRACK". { kind_eval. split; [reflexivity|]. apply Htext. }
  case_kind k "RBRACK". { kind_eval. split; [reflexivity|]. apply Htext. }
  case_kind k "COMMA". { kind_eval. split; [reflexivity|]. apply Htext. }
  case_kind k "DOT". { kind_eval. split; [reflexivity|]. apply Htext. }
  simpl. left. auto.
Qed.

(** ** The translation loop and the brace depth *)

Lemma translate_loop_app (st : TransState) (a b : list Token) :
  translate_loop st (a ++ b) =
  match translate_loop st a with
  | Err e => Err e
  | Ok st1 => translate_loop st1 b
  end.
Proof.
  revert st. induction a as [|t a IH]; intros st; simpl; [reflexivity|].
  destruct (translate_step st t); [apply IH|reflexivity].
Qed.

Lemma translate_loop_spec (toks : list Token) (st : TransState) :
  match translate_loop st toks with
  | Ok st' =>
      forallb known_kind toks = true /\
      brace_walk (indent (out st)) toks = Some (indent (out st')) /\
      exists new,
        lines (out st') = lines (out st) ++ new /\
        forallb rstripped new = true
  | Err e =>
      (forallb known_kind toks = false /\ exists t, e = UnexpectedToken t) \/
      (brace_walk (indent (out st)) toks = None /\ e = UnmatchedClose)
  end.
Proof.
  revert st. induction toks as [|t r IH]; intros st; simpl.
  - repeat split. exists []. rewrite app_nil_r. auto.
  - pose proof (translate_step_spec st t) as Hs.
    destruct (translate_step st t) as [st1|e].
    + destruct Hs as [Hk [Hb [n1 [Hl1 Hr1]]]]. rewrite Hk, Hb. simpl.
      specialize (IH st1). destruct (translate_loop st1 r) as [st2|e].
      * destruct IH as [Hk2 [Hb2 [n2 [Hl2 Hr2]]]]. repeat split; auto.
        exists (n1 ++ n2). rewrite Hl2, Hl1, forallb_app, Hr1, Hr2.
        rewrite app_assoc. auto.
      * exact IH.
    + destruct Hs as [[Hk ->]|[Hk [Hd ->]]].
      * left. rewrite Hk. simpl. eauto.
      * right. unfold brace_step. rewrite Hk, Hd. auto.
Qed.

Lemma get_output_indent (e : Emitter) : indent (snd (get_output e)) = indent e.
Proof. unfold get_output. destruct (negb (is_nil (current e))); reflexivity. Qed.

Lemma translate_spec (toks : list Token) :
  match translate toks with
  | Ok py => forallb known_kind toks = true /\ brace_walk 0 toks = Some 0
  | Err e =>
      (forallb known_kind toks = false /\ exists t, e = UnexpectedToken t) \/
      (brace_walk 0 toks = None /\ e = UnmatchedClose) \/
      (forallb known_kind toks = true /\
       (exists d, brace_walk 0 toks = Some (S d)) /\ e = UnclosedBlock)
  end.
Proof.
  unfold translate. pose proof (translate_loop_spec toks trans_init) as H.
  destruct (translate_loop trans_init toks) as [st|e].
  - destruct H as [Hk [Hb _]]. simpl in Hb.
    pose proof (get_output_indent (out st)) as Hi.
    destruct (get_output (out st)) as [py o]. simpl in Hi. rewrite Hi.
    destruct (indent (out st)) as [|d]; simpl.
    + auto.
    + right. right. eauto.
  - destruct H as [H|H]; auto.
Qed.

Lemma brace_walk_app (d : nat) (a b : list Token) :
  brace_walk d (a ++ b) =
  match brace_walk d a with
  | None => None
  | Some d' => brace_walk d' b
  end.
Proof.
  revert d. induction a as [|t a IH]; intros d; simpl; [reflexivity|].
  destruct (brace_step d t); [apply IH|reflexivity].
Qed.

Lemma count_kind_cons (k : string) (t : Token) (r : list Token) :
  count_kind k (t :: r) =
  (if String.eqb (kind t) k then 1 else 0) + count_kind k r.
Proof.
  unfold count_kind. simpl. destruct (String.eqb (kind t) k); reflexivity.
Qed.

Lemma brace_step_count (d : nat) (t : Token) :
  match brace_step d t with
  | Some d' =>
      d' + (if String.eqb (kind t) "RBRACE" then 1 else 0) =
      d + (if String.eqb (kind t) "LBRACE" then 1 else 0)
  | None => d = 0 /\ String.eqb (kind t) "RBRACE" = true
  end.
Proof.
  unfold brace_step. destruct t as [k v l c]. cbn [kind].
  case_kind k "LBRACE"; [simpl; lia|].
  case_kind k "RBRACE"; [|lia].
  destruct d; [auto|lia].
Qed.

Lemma brace_walk_count (toks : list Token) (d d' : nat) :
  brace_walk d toks = Some d' ->
  d' + count_kind "RBRACE" toks = d + count_kind "LBRACE" toks.
Proof.
  revert d. induction toks as [|t r IH]; intros d; simpl.
  - intros H. injection H as <-. reflexivity.
  - pose proof (brace_step_count d t) as Hs.
    destruct (brace_step d t) as [d1|]; [|discriminate].
    intros H. apply IH in H. rewrite !count_kind_cons. lia.
Qed.

Lemma brace_walk_exists (toks : list Token) (d : nat) :
  (forall pre post, toks = pre ++ post ->
     count_kind "RBRACE" pre <= d + count_kind "LBRACE" pre) ->
  exists d', brace_walk d toks = Some d'.
Proof.
  revert d. induction toks as [|t r IH]; intros d H; simpl; [eauto|].
  pose proof (brace_step_count d t) as Hs.
  destruct (brace_step d t) as [d1|].
  - apply IH. intros pre post ->.
    specialize (H (t :: pre) post eq_refl). rewrite !count_kind_cons in H. lia.
  - destruct Hs as [-> Hk]. specialize (H [t] r eq_refl).
    rewrite !count_kind_cons, Hk in H. unfold count_kind in H. simpl in H.
    apply String.eqb_eq in Hk. rewrite Hk in H. simpl in H. lia.
Qed.

(** * The claims *)

(** ** C1: the [soma] scenario *)

(** C1, as amended: [lex] then [translate] on the [soma] source gives the
    header line [def soma(a,b):] and the body line [return a+b] indented by
    four spaces, each ended by a newline. The blanks of the source between
    tokens are not kept: only the space after [def] and [return] is emitted. *)
Theorem soma_translation :
  lex_then_translate soma_source = Some (Ok soma_python).
Proof. vm_compute. reflexivity. Qed.

(** C1, as stated, fails: the output is not the text with [a, b] and
    [a + b]. *)
Lemma soma_translation_not_spaced :
  lex_then_translate soma_source <> Some (Ok soma_python_spaced).
Proof. vm_compute. intros H. discriminate H. Qed.

(** ** C2: what makes a run succeed *)

(** C2, as stated, fails: [OPERACAO] alone emits the header keyword [def],
    no [{] follows, the loop ends with [pending_header] set, and [translate]
    returns [def] and a newline. *)
Lemma pending_header_accepted :
  lex "OPERACAO" = Some (Ok header_only) /\
  count_kind "LBRACE" header_only = 0 /\
  (exists st, translate_loop trans_init header_only = Ok st /\
              pending_header st = true /\ indent (out st) = 0) /\
  translate header_only = Ok ("def" ++ char_str nl)%string.
Proof.
  split; [vm_compute; reflexivity|].
  split; [reflexivity|].
  split; [|vm_compute; reflexivity].
  eexists. split; [vm_compute; reflexivity|]. split; reflexivity.
Qed.

(** C2, as amended: [translate] succeeds exactly when every token kind has
    a rule, no [}] meets depth zero and the depth at the end is zero; the
    only check at the end of the input is the indentation depth, whatever
    [pending_header] holds. *)
Theorem translate_succeeds_iff_balanced (toks : list Token) :
  ((exists py, translate toks = Ok py) <->
   forallb known_kind toks = true /\ brace_walk 0 toks = Some 0) /\
  (forall st, translate_loop trans_init toks = Ok st ->
     ((exists py, translate toks = Ok py) <-> indent (out st) = 0)).
Proof.
  split.
  - pose proof (translate_spec toks) as H. split.
    + intros [py Hpy]. rewrite Hpy in H. exact H.
    + intros [Hk Hb]. destruct (translate toks) as [py|e]; [eauto|].
      destruct H as [[H _]|[[H _]|[_ [[d H] _]]]]; congruence.
  - intros st Hst. unfold translate. rewrite Hst.
    pose proof (get_output_indent (out st)) as Hi.
    destruct (get_output (out st)) as [py o]. simpl in Hi. rewrite Hi.
    destruct (indent (out st)) as [|d]; simpl; split.
    + reflexivity.
    + eauto.
    + intros [py' H]. discriminate H.
    + discriminate.
Qed.

(** ** C3: the else keyword away from a closed block *)

(** C3, as stated, fails: at the start of the input no block has just been
    closed, yet [SENAO_OPERADOR] sets [pending_header], and the [{] that
    follows puts a colon after [else]. *)
Lemma lone_else_sets_pending_header :
  just_closed_brace trans_init = false /\
  (exists st, translate_step trans_init (Tok "IDENT" "SENAO_OPERADOR" 1 1)
              = Ok st /\ pending_header st = true) /\
  lex "SENAO_OPERADOR { }" = Some (Ok lone_else) /\
  translate lone_else = Ok ("else:" ++ char_str nl)%string.
Proof.
  split; [reflexivity|].
  split; [eexists; split; [vm_compute; reflexivity|reflexivity]|].
  split; vm_compute; reflexivity.
Qed.

(** C3, as amended: whether or not a block has just been closed,
    [SENAO_OPERADOR] goes through the identifier mapping, which emits [else]
    and, [else] being a header token, sets [pending_header]; the flag
    [just_closed_brace] is cleared, and a [{] that comes next writes the
    colon after [else]. *)
Theorem else_keyword_always_header (st : TransState) (l c : nat) :
  translate_step st (Tok "IDENT" "SENAO_OPERADOR" l c) =
    Ok (MkTrans (emit_text (out st) "else") true false) /\
  forall v l' c',
    translate_step (MkTrans (emit_text (out st) "else") true false)
                   (Tok "LBRACE" v l' c') =
    Ok (MkTrans (open_block (newline (emit_text (emit_text (out st) "else") ":")))
                false false).
Proof.
  split.
  - unfold translate_step. cbn [kind value]. kind_eval.
    destruct (just_closed_brace st); reflexivity.
  - intros v l' c'. reflexivity.
Qed.

(** ** C4: unbalanced braces *)

(** C4: [translate] fails, and so returns no output, when a [}] comes
    where every earlier [{] has been closed (as many [{] as [}] before it),
    and when the input holds more [{] than [}]. When every token kind has
    a rule, the error is one of the two brace errors. *)
Theorem translate_unbalanced_fails (toks : list Token) :
  (exists pre t post,
      toks = pre ++ t :: post /\ kind t = "RBRACE" /\
      count_kind "LBRACE" pre = count_kind "RBRACE" pre) \/
  count_kind "RBRACE" toks < count_kind "LBRACE" toks ->
  exists e,
    translate toks = Err e /\
    (forallb known_kind toks = true ->
     e = UnmatchedClose \/ e = UnclosedBlock).
Proof.
  intros H. pose proof (translate_spec toks) as Hs.
  destruct (translate toks) as [py|e].
  - exfalso. destruct Hs as [_ Hb].
    destruct H as [[pre [t [post [-> [Hk Hc]]]]]|Hlt].
    + rewrite brace_walk_app in Hb.
      destruct (brace_walk 0 pre) as [d|] eqn:Ed; [|discriminate].
      apply brace_walk_count in Ed. simpl in Hb.
      unfold brace_step in Hb. rewrite Hk in Hb. simpl in Hb.
      destruct d; [discriminate|lia].
    + apply brace_walk_count in Hb. lia.
  - exists e. split; [reflexivity|]. intros Hk.
    destruct Hs as [[Hf _]|[[_ ->]|[_ [_ ->]]]]; [congruence|auto|auto].
Qed.

Lemma translate_unbalanced_fails_witness :
  exists e,
    translate [Tok "LBRACE" "{" 1 1; Tok "RBRACE" "}" 1 2; Tok "RBRACE" "}" 1 3]
    = Err e /\
    (forallb known_kind
       [Tok "LBRACE" "{" 1 1; Tok "RBRACE" "}" 1 2; Tok "RBRACE" "}" 1 3] = true ->
     e = UnmatchedClose \/ e = UnclosedBlock).
Proof.
  apply translate_unbalanced_fails. left.
  exists [Tok "LBRACE" "{" 1 1; Tok "RBRACE" "}" 1 2], (Tok "RBRACE" "}" 1 3), [].
  repeat split; reflexivity.
Defined.

(** ** C5: matched braces *)

(** C5: on a token sequence with matched braces the loop of [translate], when
    it completes, leaves the indentation depth at zero, before and after
    [get_output], so neither brace error is raised; and the loop does
    complete, with [translate] returning its output, when every token kind
    has a rule. *)
Theorem matched_braces_depth_zero (toks : list Token) :
  braces_matched toks ->
  (forall st, translate_loop trans_init toks = Ok st ->
     indent (out st) = 0 /\ indent (snd (get_output (out st))) = 0 /\
     translate toks = Ok (fst (get_output (out st)))) /\
  translate toks <> Err UnclosedBlock /\
  translate toks <> Err UnmatchedClose /\
  (forallb known_kind toks = true ->
   exists st, translate_loop trans_init toks = Ok st /\
              translate toks = Ok (fst (get_output (out st)))).
Proof.
  intros [Hpre Hcount].
  assert (Hwalk : brace_walk 0 toks = Some 0).
  { destruct (brace_walk_exists toks 0) as [d Hd].
    - intros pre post E. simpl. eauto.
    - pose proof (brace_walk_count _ _ _ Hd). rewrite Hd. f_equal. lia. }
  assert (Hloop : forall st, translate_loop trans_init toks = Ok st ->
            indent (out st) = 0 /\ indent (snd (get_output (out st))) = 0 /\
            translate toks = Ok (fst (get_output (out st)))).
  { intros st Hst. pose proof (translate_loop_spec toks trans_init) as Hs.
    rewrite Hst in Hs. destruct Hs as [_ [Hb _]]. simpl in Hb.
    assert (Hi : indent (out st) = 0) by congruence.
    split; [exact Hi|]. split; [rewrite get_output_indent; exact Hi|].
    unfold translate. rewrite Hst.
    pose proof (get_output_indent (out st)) as Hg.
    destruct (get_output (out st)) as [py o]. simpl in *.
    rewrite Hg, Hi. reflexivity. }
  pose proof (translate_spec toks) as Hs.
  split; [exact Hloop|]. split; [|split].
  - intros E. rewrite E in Hs.
    destruct Hs as [[_ [t Ht]]|[[_ Ht]|[_ [[d Hd] _]]]]; congruence.
  - intros E. rewrite E in Hs.
    destruct Hs as [[_ [t Ht]]|[[Hn _]|[_ [_ Ht]]]]; congruence.
  - intros Hk. pose proof (translate_loop_spec toks trans_init) as Hl.
    destruct (translate_loop trans_init toks) as [st|e].
    + exists st. split; [reflexivity|]. apply Hloop. reflexivity.
    + exfalso. simpl in Hl. destruct Hl as [[Hf _]|[Hn _]]; congruence.
Qed.

Lemma nested_blocks_matched : braces_matched nested_blocks.
Proof.
  split; [|reflexivity].
  intros pre post E. unfold nested_blocks in E.
  repeat (destruct pre as [|? pre];
          [vm_compute; lia
          |simpl in E; try discriminate E; injection E as <- E]).
Defined.

Lemma matched_braces_depth_zero_witness :
  (forall st, translate_loop trans_init nested_blocks = Ok st ->
     indent (out st) = 0 /\ indent (snd (get_output (out st))) = 0 /\
     translate nested_blocks = Ok (fst (get_output (out st)))) /\
  translate nested_blocks <> Err UnclosedBlock /\
  translate nested_blocks <> Err UnmatchedClose /\
  (forallb known_kind nested_blocks = true ->
   exists st, translate_loop trans_init nested_blocks = Ok st /\
              translate nested_blocks = Ok (fst (get_output (out st)))).
Proof.
  apply (matched_braces_depth_zero nested_blocks). exact nested_blocks_matched.
Defined.

(** ** C6: upper-case identifiers outside the keyword table *)

Lemma ident_start_tests (ch : ascii) :
  isalpha ch || Ascii.eqb ch "_" = true ->
  Ascii.eqb ch nl = false /\ char_in ch blanks = false /\
  Ascii.eqb ch "#" = false /\ Ascii.eqb ch "/" = false /\
  Ascii.eqb ch dquote = false.
Proof.
  intros H.
  assert (Hx : forall x, isalpha x || Ascii.eqb x "_" = false ->
                         Ascii.eqb ch x = false).
  { intros x Hx. destruct (Ascii.eqb_spec ch x) as [->|]; congruence. }
  repeat split; try (apply Hx; vm_compute; reflexivity).
  unfold char_in, blanks. cbn [chars list_ascii_of_string existsb].
  rewrite !Hx by (vm_compute; reflexivity). reflexivity.
Qed.

Lemma lex_step_ident (s : LexState) (ch : ascii) (r1 rest0 : string) :
  rest s = String ch (r1 ++ rest0) ->
  isalpha ch || Ascii.eqb ch "_" = true ->
  forallb ident_char (chars r1) = true ->
  starts_ident rest0 = false ->
  lex_step s =
  if isupper (String ch r1) && negb (dict_mem KEYWORDS_MAP (String ch r1))
  then Err (RaiseLexerError
              (UnknownKeyword (String ch r1) (cur_line s) (cur_col s)))
  else Ok (LexSt rest0 (cur_line s)
                 (cur_col s + String.length (String ch r1))
                 (tokens s ++ [Tok "IDENT" (String ch r1)
                                   (cur_line s) (cur_col s)])).
Proof.
  intros Hr Hch Hall Hend.
  destruct (ident_start_tests ch Hch) as [H1 [H2 [H3 [H4 H5]]]].
  unfold lex_step. rewrite Hr. cbv beta iota zeta.
  rewrite H1, H2, H3, H4, H5, Hch. cbn [andb]. cbv beta iota.
  rewrite (scan_ident_app r1 rest0 (char_str ch) (S (cur_col s)) Hall Hend).
  cbv beta iota. change (char_str ch ++ r1)%string with (String ch r1).
  replace (S (cur_col s) + String.length r1)
    with (cur_col s + String.length (String ch r1)) by (simpl; lia).
  reflexivity.
Qed.

Lemma skip_block_comment_error (s : string) (l c sl sc : nat)
  (e : LexException) :
  skip_block_comment s l c sl sc = Err e ->
  e = RaiseLexerError (UnclosedComment sl sc).
Proof.
  revert l c. induction s as [|ch r IH]; intros l c; simpl.
  - intros H. injection H as <-. reflexivity.
  - destruct (Ascii.eqb ch nl); [apply IH|].
    destruct (Ascii.eqb ch "*" && String.eqb (peek r) "/") eqn:E; [|apply IH].
    apply andb_prop in E. destruct E as [_ E].
    apply (peek_eq r "/") in E. destruct E as [r2 ->]. discriminate.
Qed.

Lemma lex_step_unknown_keyword (s : LexState) (id : string) (l c : nat) :
  lex_step s = Err (RaiseLexerError (UnknownKeyword id l c)) ->
  isupper id = true /\ dict_mem KEYWORDS_MAP id = false.
Proof.
  unfold lex_step. destruct (rest s) as [|ch r]; [discriminate|].
  cbv beta iota zeta.
  destruct (Ascii.eqb ch nl); [discriminate|].
  destruct (char_in ch blanks); [discriminate|].
  destruct (Ascii.eqb ch "#").
  { destruct (skip_line_comment (String ch r) (cur_col s)). discriminate. }
  destruct (Ascii.eqb ch "/" && String.eqb (peek r) "*").
  { destruct (advance r) as [r2|e] eqn:Ea.
    - destruct (skip_block_comment r2 (cur_line s) (S (S (cur_col s)))
                  (cur_line s) (cur_col s)) as [[[r' l'] c']|e] eqn:E.
      + discriminate.
      + apply skip_block_comment_error in E. subst e. discriminate.
    - destruct r; [|discriminate Ea]. injection Ea as <-. discriminate. }
  destruct (Ascii.eqb ch dquote).
  { destruct (scan_string r false (char_str ch) (cur_line s) (S (cur_col s)))
      as [[[[b r'] l'] c']|]; discriminate. }
  destruct (isalpha ch || Ascii.eqb ch "_").
  { destruct (scan_ident r (char_str ch) (S (cur_col s))) as [[ident r'] c'].
    destruct (isupper ident && negb (dict_mem KEYWORDS_MAP ident)) eqn:E;
      [|discriminate].
    intros H. injection H as <- _ _. apply andb_prop in E.
    destruct E as [E1 E2]. split; [exact E1|].
    destruct (dict_mem KEYWORDS_MAP ident); [discriminate E2|reflexivity]. }
  destruct (isdigit ch).
  { destruct (scan_number r false (char_str ch) (S (cur_col s))) as [[b r'] c'].
    discriminate. }
  destruct (str_in (String ch (peek r)) MULTI_CHAR_OPS).
  { destruct r; simpl; discriminate. }
  destruct (char_in ch symbols); discriminate.
Qed.

Lemma lex_loop_unknown_keyword (f : nat) (s : LexState) (id : string)
  (l c : nat) :
  lex_loop f s = Some (Err (RaiseLexerError (UnknownKeyword id l c))) ->
  isupper id = true /\ dict_mem KEYWORDS_MAP id = false.
Proof.
  revert s. induction f as [|f IH]; intros s;
    destruct s as [r l0 c0 t]; destruct r as [|ch r]; simpl;
    try discriminate.
  destruct (lex_step (LexSt (String ch r) l0 c0 t)) as [s'|e] eqn:E.
  - apply IH.
  - intros H. injection H as ->. apply (lex_step_unknown_keyword _ _ _ _ E).
Qed.

(** C6: when the loop of [lex] reaches an identifier of the source (after
    the prefix [pre]), the line and column it holds are those of the
    identifier's first character, counted from 1. If the identifier is
    upper-case and is not a key of the keyword table, [lex] raises the
    unknown-keyword error with that identifier, line and column; otherwise
    the loop emits it as an IDENT token and goes on. No other identifier is
    ever reported by that error. *)
Theorem unknown_upper_ident_rejected
  (source pre ident rest0 : string) (s : LexState) :
  lex_reaches (lex_init source) s ->
  source = (pre ++ ident ++ rest0)%string ->
  rest s = (ident ++ rest0)%string ->
  ident_shaped ident = true ->
  starts_ident rest0 = false ->
  (cur_line s, cur_col s) = pos_after pre 1 1 /\
  (isupper ident = true -> dict_mem KEYWORDS_MAP ident = false ->
   lex source =
   Some (Err (RaiseLexerError
                (UnknownKeyword ident (cur_line s) (cur_col s))))) /\
  (isupper ident = false \/ dict_mem KEYWORDS_MAP ident = true ->
   lex_step s =
   Ok (LexSt rest0 (cur_line s) (cur_col s + String.length ident)
             (tokens s ++ [Tok "IDENT" ident (cur_line s) (cur_col s)]))) /\
  (forall id l c,
     lex source = Some (Err (RaiseLexerError (UnknownKeyword id l c))) ->
     isupper id = true /\ dict_mem KEYWORDS_MAP id = false).
Proof.
  intros Hreach Hsrc Hrest Hshape Hend.
  destruct ident as [|ch r1]; [discriminate Hshape|].
  simpl in Hshape. apply andb_prop in Hshape. destruct Hshape as [Hch Hall].
  pose proof (lex_step_ident s ch r1 rest0 Hrest Hch Hall Hend) as Hstep.
  split; [|split; [|split]].
  - destruct (lex_reaches_inv _ _ Hreach) as [p [new [Hp [Hpos _]]]].
    simpl in Hp, Hpos. rewrite Hsrc, Hrest in Hp.
    apply append_inv_tail in Hp. subst p. symmetry. exact Hpos.
  - intros Hup Hmem. unfold lex.
    change (String.length source)
      with (String.length (rest (lex_init source))).
    rewrite (lex_reaches_loop _ _ Hreach).
    rewrite Hup, Hmem in Hstep. simpl in Hstep.
    destruct s as [r l c t]. simpl in Hrest. subst r.
    simpl. rewrite Hstep. reflexivity.
  - intros Hor. rewrite Hstep.
    destruct Hor as [Hup|Hmem].
    + rewrite Hup. reflexivity.
    + rewrite Hmem, andb_false_r. reflexivity.
  - intros id l c H. apply (lex_loop_unknown_keyword _ _ _ _ _ H).
Qed.

Lemma foo_state_reached : lex_reaches (lex_init foo_source) foo_state.
Proof.
  eapply reach_step; [discriminate|vm_compute; reflexivity|].
  eapply reach_step; [discriminate|vm_compute; reflexivity|].
  eapply reach_step; [discriminate|vm_compute; reflexivity|].
  eapply reach_step; [discriminate|vm_compute; reflexivity|].
  apply reach_here.
Defined.

Lemma unknown_upper_ident_rejected_witness :
  (cur_line foo_state, cur_col foo_state) = pos_after foo_prefix 1 1 /\
  (isupper "FOO" = true -> dict_mem KEYWORDS_MAP "FOO" = false ->
   lex foo_source =
   Some (Err (RaiseLexerError
                (UnknownKeyword "FOO" (cur_line foo_state)
                                (cur_col foo_state))))) /\
  (isupper "FOO" = false \/ dict_mem KEYWORDS_MAP "FOO" = true ->
   lex_step foo_state =
   Ok (LexSt "(" (cur_line foo_state)
             (cur_col foo_state + String.length "FOO")
             (tokens foo_state
              ++ [Tok "IDENT" "FOO" (cur_line foo_state)
                      (cur_col foo_state)]))) /\
  (forall id l c,
     lex foo_source = Some (Err (RaiseLexerError (UnknownKeyword id l c))) ->
     isupper id = true /\ dict_mem KEYWORDS_MAP id = false).
Proof.
  apply (unknown_upper_ident_rejected foo_source foo_prefix "FOO" "(" foo_state).
  - exact foo_state_reached.
  - reflexivity.
  - reflexivity.
  - reflexivity.
  - reflexivity.
Defined.

Example foo_rejected :
  lex foo_source = Some (Err (RaiseLexerError (UnknownKeyword "FOO" 2 3))).
Proof. vm_compute. reflexivity. Qed.

Example lower_case_ident_accepted :
  lex "Foo _ x1" =
  Some (Ok [Tok "IDENT" "Foo" 1 1; Tok "IDENT" "_" 1 5; Tok "IDENT" "x1" 1 7;
            Tok "NEWLINE" (char_str nl) 1 9]).
Proof. vm_compute. reflexivity. Qed.

(** A source that ends in [<] or [>]: the two-character operator rule
    matches the single character and the second [advance()] reads past the
    end of the source. *)
Example trailing_relational_index_error :
  lex "a >" = Some (Err RaiseIndexError).
Proof. vm_compute. reflexivity. Qed.

(** ** C7: the end of the output *)

Lemma concat_snoc (sep : string) (ls : list string) (x : string) :
  exists p, String.concat sep (ls ++ [x]) = (p ++ x)%string.
Proof.
  induction ls as [|a ls [p IH]].
  - exists EmptyString. reflexivity.
  - simpl. destruct (ls ++ [x]) eqn:E.
    + destruct ls; discriminate E.
    + rewrite IH. exists (a ++ sep ++ p)%string.
      rewrite !append_assoc. reflexivity.
Qed.

Lemma pop_blank_lines_spec (l : list string) :
  (exists dropped, l = pop_blank_lines l ++ dropped) /\
  (pop_blank_lines l = [] \/
   exists ls x, pop_blank_lines l = ls ++ [x] /\ x <> EmptyString).
Proof.
  unfold pop_blank_lines. split.
  - destruct (drop_while_suffix (String.eqb EmptyString) (rev l)) as [pre H].
    exists (rev pre). rewrite <- rev_app_distr, <- H, rev_involutive.
    reflexivity.
  - pose proof (drop_while_head (String.eqb EmptyString) (rev l)) as H.
    destruct (drop_while (String.eqb EmptyString) (rev l)) as [|x r].
    + left. reflexivity.
    + right. exists (rev r), x. split; [reflexivity|].
      apply String.eqb_neq in H. congruence.
Qed.

Lemma rstripped_last_char (x : string) :
  x <> EmptyString -> rstripped x = true ->
  exists c r, rev (chars x) = c :: r /\ isspace c = false.
Proof.
  unfold rstripped. intros Hne H. destruct (rev (chars x)) as [|c r] eqn:E.
  - exfalso. apply Hne. rewrite <- (str_chars x), <- (rev_involutive (chars x)).
    rewrite E. reflexivity.
  - exists c, r. split; [reflexivity|]. destruct (isspace c); [discriminate|auto].
Qed.

Lemma rstripped_not_blank (x : string) :
  x <> EmptyString -> rstripped x = true -> blank x = false.
Proof.
  intros Hne H. destruct (rstripped_last_char x Hne H) as [c [r [E Hc]]].
  unfold blank. destruct (forallb isspace (chars x)) eqn:F; [|reflexivity].
  rewrite forallb_forall in F. rewrite <- Hc. symmetry. apply F.
  apply in_rev. rewrite E. left. reflexivity.
Qed.

Lemma take_while_cons {A : Type} (p : A -> bool) (x : A) (l : list A) :
  take_while p (x :: l) = if p x then x :: take_while p l else [].
Proof. reflexivity. Qed.

Lemma trailing_newlines_snoc (s : string) :
  trailing_newlines (s ++ char_str nl) =
  S (List.length (take_while (Ascii.eqb nl) (rev (chars s)))).
Proof.
  unfold trailing_newlines. rewrite chars_append, rev_app_distr.
  change (rev (chars (char_str nl))) with [nl].
  change ([nl] ++ rev (chars s)) with (nl :: rev (chars s)).
  rewrite take_while_cons, Ascii.eqb_refl. reflexivity.
Qed.

Lemma trailing_newlines_join (ls : list string) :
  forallb rstripped ls = true ->
  ls = [] \/ (exists l0 x, ls = l0 ++ [x] /\ x <> EmptyString) ->
  trailing_newlines (String.concat (char_str nl) ls ++ char_str nl) = 1.
Proof.
  intros Hr H. rewrite trailing_newlines_snoc. f_equal.
  destruct H as [->|[l0 [x [-> Hne]]]]; [reflexivity|].
  rewrite forallb_app in Hr. apply andb_prop in Hr. destruct Hr as [_ Hr].
  cbn [forallb] in Hr. rewrite andb_true_r in Hr.
  destruct (rstripped_last_char x Hne Hr) as [c [r [E Hc]]].
  destruct (concat_snoc (char_str nl) l0 x) as [p ->].
  rewrite chars_append, rev_app_distr, E.
  change ((c :: r) ++ rev (chars p)) with (c :: (r ++ rev (chars p))).
  rewrite take_while_cons.
  destruct (Ascii.eqb_spec nl c) as [<-|]; [discriminate Hc|reflexivity].
Qed.

Lemma forallb_prefix {A : Type} (p : A -> bool) (a b : list A) :
  forallb p (a ++ b) = true -> forallb p a = true.
Proof. rewrite forallb_app. intros H. apply andb_prop in H. apply H. Qed.

Lemma get_output_spec (e : Emitter) :
  forallb rstripped (lines e) = true ->
  current (snd (get_output e)) = [] /\
  fst (get_output e) =
    (String.concat (char_str nl) (lines (snd (get_output e))) ++ char_str nl)%string /\
  forallb rstripped (lines (snd (get_output e))) = true /\
  (lines (snd (get_output e)) = [] \/
   exists l0 x, lines (snd (get_output e)) = l0 ++ [x] /\ x <> EmptyString).
Proof.
  intros Hr. unfold get_output. cbn [fst snd lines current].
  set (e1 := if negb (is_nil (current e)) then newline e else e).
  assert (H1 : current e1 = [] /\ forallb rstripped (lines e1) = true).
  { subst e1. destruct (current e) eqn:E; simpl.
    - rewrite E. auto.
    - rewrite forallb_app, Hr. simpl. rewrite rstrip_rstripped. auto. }
  destruct H1 as [Hc Hl].
  destruct (pop_blank_lines_spec (lines e1)) as [[dropped Hd] Hlast].
  repeat split; auto.
  rewrite Hd in Hl. apply forallb_prefix in Hl. exact Hl.
Qed.

Lemma drop_while_prefix {A : Type} (p : A -> bool) (l : list A) :
  exists pre, l = pre ++ drop_while p l /\ forallb p pre = true.
Proof.
  induction l as [|x l [pre [IH Hp]]]; simpl.
  - exists []. auto.
  - destruct (p x) eqn:E.
    + exists (x :: pre). simpl. rewrite E, Hp. split; [congruence|reflexivity].
    + exists []. auto.
Qed.

Lemma all_empty_repeat (l : list string) :
  forallb (String.eqb EmptyString) l = true ->
  l = repeat EmptyString (List.length l).
Proof.
  induction l as [|x l IH]; [reflexivity|]. simpl. intros H.
  apply andb_prop in H. destruct H as [Hx Hl].
  destruct x; [|discriminate Hx]. f_equal. apply IH. exact Hl.
Qed.

Lemma pop_blank_lines_exact (l : list string) :
  exists n,
    l = pop_blank_lines l ++ repeat EmptyString n /\
    (forall l0 x, pop_blank_lines l = l0 ++ [x] -> x <> EmptyString).
Proof.
  unfold pop_blank_lines.
  destruct (drop_while_prefix (String.eqb EmptyString) (rev l)) as [pre [H Hp]].
  pose proof (drop_while_head (String.eqb EmptyString) (rev l)) as Hh.
  remember (drop_while (String.eqb EmptyString) (rev l)) as dw eqn:Edw.
  clear Edw. exists (List.length pre). split.
  - apply (f_equal (@rev string)) in H.
    rewrite rev_involutive, rev_app_distr in H. rewrite H. f_equal.
    rewrite (all_empty_repeat pre Hp) at 1. apply rev_repeat.
  - intros l0 x E.
    destruct dw as [|y r].
    + destruct l0; discriminate E.
    + simpl in E. apply app_inj_tail in E. destruct E as [_ <-].
      apply String.eqb_neq in Hh. congruence.
Qed.

(** What [get_output] returns and leaves: the flushed lines without the
    empty lines at their end. *)
Lemma get_output_exact (e : Emitter) :
  exists kept n,
    flushed_lines e = kept ++ repeat EmptyString n /\
    (forall l0 x, kept = l0 ++ [x] -> x <> EmptyString) /\
    get_output e =
      ((String.concat (char_str nl) kept ++ char_str nl)%string,
       MkEmitter kept [] (indent e)
                 (if is_nil (current e) then need_indent e else true)).
Proof.
  unfold get_output, flushed_lines.
  destruct (current e) as [|a l] eqn:Ec; cbn [is_nil negb].
  - destruct (pop_blank_lines_exact (lines e)) as [n [H1 H2]].
    exists (pop_blank_lines (lines e)), n. rewrite Ec. auto.
  - unfold newline. cbn [lines current indent need_indent]. rewrite Ec.
    destruct (pop_blank_lines_exact
                (lines e ++ [rstrip (String.concat EmptyString (a :: l))]))
      as [n [H1 H2]].
    eexists. exists n. split; [exact H1|]. split; [exact H2|reflexivity].
Qed.

Lemma flushed_lines_rstripped (e : Emitter) :
  forallb rstripped (lines e) = true ->
  forallb rstripped (flushed_lines e) = true.
Proof.
  intros H. unfold flushed_lines. destruct (is_nil (current e)); [exact H|].
  rewrite forallb_app, H. simpl. rewrite rstrip_rstripped. reflexivity.
Qed.

(** C7: when [translate] succeeds, the unfinished line, if there is one, is
    first finished like the others (joined, stripped of trailing
    whitespace, put last); the empty lines at the end of the lines so
    obtained are dropped, so that the last line kept is not blank; the
    output is the lines kept, joined by newlines, plus one newline, and it
    ends with exactly one newline character. [get_output] leaves the lines
    kept in the emitter, with no line under construction. *)
Theorem translate_output_one_newline (toks : list Token) (py : string) :
  translate toks = Ok py ->
  exists st kept n,
    translate_loop trans_init toks = Ok st /\
    flushed_lines (out st) = kept ++ repeat EmptyString n /\
    (forall l0 x, kept = l0 ++ [x] -> x <> EmptyString /\ blank x = false) /\
    py = (String.concat (char_str nl) kept ++ char_str nl)%string /\
    fst (get_output (out st)) = py /\
    lines (snd (get_output (out st))) = kept /\
    current (snd (get_output (out st))) = [] /\
    trailing_newlines py = 1.
Proof.
  unfold translate. intros H.
  pose proof (translate_loop_spec toks trans_init) as Hs.
  destruct (translate_loop trans_init toks) as [st|e]; [|discriminate H].
  destruct Hs as [_ [_ [new [Hl Hr]]]]. simpl in Hl.
  assert (Hlines : forallb rstripped (lines (out st)) = true) by congruence.
  destruct (get_output_exact (out st)) as [kept [n [Hf [Hlast Hg]]]].
  rewrite Hg in H. cbn [indent] in H.
  destruct (negb (indent (out st) =? 0)); [discriminate H|].
  injection H as <-.
  assert (Hk : forallb rstripped kept = true).
  { apply flushed_lines_rstripped in Hlines. rewrite Hf in Hlines.
    apply forallb_prefix in Hlines. exact Hlines. }
  exists st, kept, n. rewrite Hg. cbn [fst snd lines current].
  split; [reflexivity|]. split; [exact Hf|]. split.
  - intros l0 x E. pose proof (Hlast l0 x E) as Hx. split; [exact Hx|].
    apply rstripped_not_blank; [exact Hx|].
    rewrite E, forallb_app in Hk. apply andb_prop in Hk.
    destruct Hk as [_ Hk]. cbn [forallb] in Hk.
    rewrite andb_true_r in Hk. exact Hk.
  - repeat split. apply trailing_newlines_join; [exact Hk|].
    destruct kept as [|a0 k0]; [left; reflexivity|]. right.
    assert (Hne : a0 :: k0 <> []) by discriminate.
    destruct (exists_last Hne) as [l1 [y Hy]].
    exists l1, y. split; [exact Hy|]. apply (Hlast l1 y Hy).
Qed.

Lemma translate_output_one_newline_witness :
  exists st kept n,
    translate_loop trans_init unfinished_line = Ok st /\
    flushed_lines (out st) = kept ++ repeat EmptyString n /\
    (forall l0 x, kept = l0 ++ [x] -> x <> EmptyString /\ blank x = false) /\
    (String "x" (String nl (String nl (String "y" (char_str nl))))) =
      (String.concat (char_str nl) kept ++ char_str nl)%string /\
    fst (get_output (out st)) =
      String "x" (String nl (String nl (String "y" (char_str nl)))) /\
    lines (snd (get_output (out st))) = kept /\
    current (snd (get_output (out st))) = [] /\
    trailing_newlines
      (String "x" (String nl (String nl (String "y" (char_str nl))))) = 1.
Proof.
  apply (translate_output_one_newline unfinished_line). vm_compute. reflexivity.
Defined.

(** The loop leaves the line [y] under construction; the output holds it. *)
Example unfinished_line_flushed :
  translate_loop trans_init unfinished_line =
    Ok (MkTrans (MkEmitter ["x"; EmptyString] [EmptyString; "y"] 0 false)
                false false) /\
  flushed_lines (MkEmitter ["x"; EmptyString] [EmptyString; "y"] 0 false) =
    ["x"; EmptyString; "y"] /\
  translate unfinished_line =
    Ok (String "x" (String nl (String nl (String "y" (char_str nl))))).
Proof. repeat split; vm_compute; reflexivity. Qed.

(** Empty lines at the end of the input are dropped from the output. *)
Example trailing_empty_lines_dropped :
  translate [Tok "IDENT" "x" 1 1; Tok "NEWLINE" (char_str nl) 1 2;
             Tok "NEWLINE" (char_str nl) 2 1; Tok "SEMI" ";" 3 1] =
  Ok (String "x" (char_str nl)).
Proof. vm_compute. reflexivity. Qed.

(** ** C8: an escaped quote inside a string literal *)

(** C8: [lex] turns the literal into one STRING token whose value is the
    literal itself, backslash included (followed by the final NEWLINE token
    that [lex] always appends), and [translate] writes that value unchanged
    on the output line. *)
Theorem escaped_quote_verbatim :
  chars escaped_literal = [dquote; "a"; backslash; dquote; "b"; dquote]%char /\
  lex escaped_literal = Some (Ok escaped_literal_tokens) /\
  count_kind "STRING" escaped_literal_tokens = 1 /\
  translate escaped_literal_tokens = Ok (escaped_literal ++ char_str nl)%string /\
  lex_then_translate escaped_literal =
    Some (Ok (escaped_literal ++ char_str nl)%string).
Proof. repeat split; vm_compute; reflexivity. Qed.

(** ** C9: string literals and raw newlines *)

Lemma scan_string_step (c : ascii) (r : string) (esc : bool) (buf : string)
  (l c0 : nat) :
  scan_string (String c r) esc buf l c0 =
  if negb esc && Ascii.eqb c dquote && negb (Ascii.eqb c backslash)
  then Some ((buf ++ char_str c)%string, r,
             if Ascii.eqb c nl then S l else l,
             if Ascii.eqb c nl then 1 else S c0)
  else scan_string r (if esc then false else Ascii.eqb c backslash)
                   (buf ++ char_str c)
                   (if Ascii.eqb c nl then S l else l)
                   (if Ascii.eqb c nl then 1 else S c0).
Proof.
  simpl. destruct esc; [reflexivity|].
  destruct (Ascii.eqb c backslash) eqn:Eb; simpl.
  - rewrite andb_false_r. reflexivity.
  - rewrite andb_true_r. destruct (Ascii.eqb c dquote); reflexivity.
Qed.

Lemma never_closes_cons (esc : bool) (c : ascii) (r : string) :
  never_closes esc (String c r) <->
  (negb esc && Ascii.eqb c dquote = false) /\
  never_closes (if esc then false else Ascii.eqb c backslash) r.
Proof.
  unfold never_closes. split.
  - intros H. split.
    + destruct esc; [reflexivity|]. simpl.
      destruct (Ascii.eqb_spec c dquote) as [->|]; [|reflexivity].
      specialize (H EmptyString r eq_refl). discriminate H.
    + intros a b ->. apply (H (String c a) b). reflexivity.
  - intros [Hq H] a b E. destruct a as [|c' a]; simpl in E.
    + injection E as -> _. destruct esc; [reflexivity|discriminate Hq].
    + injection E as <- E. simpl. apply (H a b E).
Qed.

Lemma scan_string_none_iff (r : string) (esc : bool) (buf : string)
  (l c : nat) :
  scan_string r esc buf l c = None <-> never_closes esc r.
Proof.
  revert esc buf l c. induction r as [|ch r IH]; intros esc buf l c.
  - simpl. split; [|reflexivity]. intros _ a b E.
    destruct a; discriminate E.
  - rewrite scan_string_step, never_closes_cons.
    destruct (negb esc && Ascii.eqb ch dquote) eqn:Eq; simpl.
    + destruct (Ascii.eqb ch backslash) eqn:Eb; simpl.
      * exfalso. apply andb_prop in Eq. destruct Eq as [_ Eq].
        apply Ascii.eqb_eq in Eq. apply Ascii.eqb_eq in Eb.
        subst ch. discriminate Eb.
      * split; [discriminate|]. intros [H _]. discriminate H.
    + rewrite IH. tauto.
Qed.

Lemma scan_string_closing (body rest0 : string) (esc : bool) (buf : string)
  (l c : nat) :
  escaped_after esc body = false -> never_closes esc body ->
  scan_string (body ++ String dquote rest0) esc buf l c =
  Some ((buf ++ body ++ char_str dquote)%string, rest0,
        fst (pos_after (body ++ char_str dquote) l c),
        snd (pos_after (body ++ char_str dquote) l c)).
Proof.
  revert esc buf l c. induction body as [|ch body IH]; intros esc buf l c He Hn.
  - simpl in He. subst esc. reflexivity.
  - apply never_closes_cons in Hn. destruct Hn as [Hq Hn]. simpl in He.
    change ((String ch body ++ String dquote rest0)%string)
      with (String ch (body ++ String dquote rest0)).
    rewrite scan_string_step, Hq. cbn [andb].
    rewrite (IH _ _ _ _ He Hn), append_snoc. simpl.
    destruct (Ascii.eqb ch nl); reflexivity.
Qed.

Lemma lex_step_string (s : LexState) (body rest0 : string) :
  rest s = String dquote (body ++ String dquote rest0) ->
  escaped_after false body = false ->
  never_closes false body ->
  lex_step s =
    Ok (LexSt rest0
          (fst (pos_after (String dquote (body ++ char_str dquote))
                          (cur_line s) (cur_col s)))
          (snd (pos_after (String dquote (body ++ char_str dquote))
                          (cur_line s) (cur_col s)))
          (tokens s ++ [Tok "STRING" (String dquote (body ++ char_str dquote))
                            (cur_line s) (cur_col s)])).
Proof.
  intros Hr He Hn. unfold lex_step. rewrite Hr. cbv beta iota zeta.
  change (Ascii.eqb dquote nl) with false.
  change (char_in dquote blanks) with false.
  change (Ascii.eqb dquote "#") with false.
  change (Ascii.eqb dquote "/") with false.
  change (Ascii.eqb dquote dquote) with true. cbv beta iota.
  cbn [andb]. cbv beta iota.
  rewrite (scan_string_closing body rest0 false _ _ _ He Hn).
  reflexivity.
Qed.

Lemma lex_step_unclosed_string (s : LexState) (r : string) :
  rest s = String dquote r ->
  (lex_step s = Err (RaiseLexerError (UnclosedString (cur_line s) (cur_col s)))
   <-> never_closes false r).
Proof.
  intros Hs. unfold lex_step. rewrite Hs. cbv beta iota zeta.
  change (Ascii.eqb dquote nl) with false.
  change (char_in dquote blanks) with false.
  change (Ascii.eqb dquote "#") with false.
  change (Ascii.eqb dquote "/") with false.
  change (Ascii.eqb dquote dquote) with true. cbv beta iota.
  cbn [andb]. cbv beta iota.
  rewrite <- (scan_string_none_iff r false (char_str dquote)
                (cur_line s) (S (cur_col s))).
  destruct (scan_string r false (char_str dquote) (cur_line s)
              (S (cur_col s))) as [[[[b r'] l'] c']|].
  - split; discriminate.
  - split; reflexivity.
Qed.

Lemma lex_reaches_snoc (a s s' : LexState) :
  lex_reaches a s -> rest s <> EmptyString -> lex_step s = Ok s' ->
  lex_reaches a s'.
Proof.
  induction 1 as [s0|s0 s1 s2 Hne0 Hstep0 Hreach IH]; intros Hne Hstep.
  - eapply reach_step; [exact Hne|exact Hstep|apply reach_here].
  - eapply reach_step; [exact Hne0|exact Hstep0|apply IH; assumption].
Qed.

Lemma lex_loop_tokens_prefix (f : nat) (s : LexState) (toks : list Token) :
  lex_loop f s = Some (Ok toks) -> exists more, toks = tokens s ++ more.
Proof.
  revert s. induction f as [|f IH]; intros s H;
    destruct s as [r l c t]; destruct r as [|ch r]; simpl in H;
    try discriminate H.
  - injection H as <-. eexists. reflexivity.
  - injection H as <-. eexists. reflexivity.
  - destruct (lex_step (LexSt (String ch r) l c t)) as [s1|e1] eqn:E;
      [|discriminate H].
    destruct (IH s1 H) as [more ->].
    destruct (lex_step_spec _ _ (ltac:(discriminate) : rest (LexSt (String ch r) l c t) <> EmptyString) E)
      as [pre [new [_ [_ [_ [Ht _]]]]]].
    simpl in Ht. rewrite Ht, <- app_assoc. eexists. reflexivity.
Qed.

(** Reading on never comes back to the position it started from. *)
Lemma pos_after_forward (pre : string) (l c l' c' : nat) :
  pos_after pre l c = (l', c') ->
  l <= l' /\ (l = l' -> c' = c + String.length pre).
Proof.
  revert l c. induction pre as [|ch pre IH]; intros l c H; simpl in H.
  - injection H as <- <-. simpl. split; [lia|intros _; lia].
  - destruct (Ascii.eqb ch nl); apply IH in H; simpl; lia.
Qed.

Lemma no_comment_close_cons (ch : ascii) (r : string) :
  no_comment_close (String ch r) <->
  (Ascii.eqb ch "*" && String.eqb (peek r) "/" = false) /\ no_comment_close r.
Proof.
  unfold no_comment_close. split.
  - intros H. split.
    + destruct (Ascii.eqb ch "*" && String.eqb (peek r) "/") eqn:E;
        [|reflexivity].
      apply andb_prop in E. destruct E as [E1 E2].
      apply Ascii.eqb_eq in E1. subst ch.
      apply (peek_eq r "/") in E2. destruct E2 as [r2 ->].
      exfalso. apply (H EmptyString r2). reflexivity.
    + intros a b ->. apply (H (String ch a) b). reflexivity.
  - intros [Hc H] a b E. destruct a as [|c' a]; simpl in E.
    + injection E as -> ->. discriminate Hc.
    + injection E as _ E. apply (H a b E).
Qed.

Lemma skip_block_comment_unclosed (r : string) (l c sl sc : nat) :
  skip_block_comment r l c sl sc = Err (RaiseLexerError (UnclosedComment sl sc))
  <-> no_comment_close r.
Proof.
  revert l c. induction r as [|ch r IH]; intros l c.
  - simpl. split; [|reflexivity]. intros _ a b E. destruct a; discriminate E.
  - rewrite no_comment_close_cons. simpl.
    destruct (Ascii.eqb_spec ch nl) as [->|Hnl].
    + change (Ascii.eqb nl "*") with false. cbn [andb].
      rewrite IH. tauto.
    + destruct (Ascii.eqb ch "*" && String.eqb (peek r) "/") eqn:E.
      * apply andb_prop in E. destruct E as [_ E].
        apply (peek_eq r "/") in E. destruct E as [r2 ->]. unfold advance.
        split; [discriminate|]. intros [H _]. discriminate H.
      * rewrite IH. tauto.
Qed.

Lemma one_char_op (ch : ascii) :
  str_in (char_str ch) MULTI_CHAR_OPS = true -> ch = ">"%char \/ ch = "<"%char.
Proof.
  intros H. unfold str_in, MULTI_CHAR_OPS, RELATIONALS, char_str in H.
  cbn in H.
  destruct (Ascii.eqb_spec ch ">"); [auto|].
  destruct (Ascii.eqb_spec ch "<"); [auto|].
  repeat match type of H with
         | context [Ascii.eqb ch ?x] => destruct (Ascii.eqb ch x)
         end; discriminate H.
Qed.

Lemma op_start_symbol (ch : ascii) (x : string) :
  str_in (String ch x) MULTI_CHAR_OPS = true -> char_in ch symbols = true.
Proof.
  intros H. unfold str_in in H. apply existsb_exists in H.
  destruct H as [op [Hin Heq]]. apply String.eqb_eq in Heq. subst op.
  unfold MULTI_CHAR_OPS, RELATIONALS in Hin. simpl in Hin.
  repeat (destruct Hin as [Hin|Hin]; [injection Hin as <- _; reflexivity|]).
  destruct Hin.
Qed.

(** Where and why one iteration of the lexer loop fails. *)
Lemma lex_step_error (s : LexState) (e : LexException) :
  lex_step s = Err e ->
  match e with
  | RaiseLexerError le =>
      lexer_error_pos le = (cur_line s, cur_col s) /\
      lexer_error_text le (rest s)
  | RaiseIndexError => rest s = "<" \/ rest s = ">"
  end.
Proof.
  destruct s as [src l c toks]. unfold lex_step.
  cbn [rest cur_line cur_col tokens].
  destruct src as [|ch r]; [discriminate|]. cbv beta iota zeta.
  destruct (Ascii.eqb ch nl) eqn:Enl; [discriminate|].
  destruct (char_in ch blanks) eqn:Ebl; [discriminate|].
  destruct (Ascii.eqb ch "#") eqn:Eh.
  { destruct (skip_line_comment (String ch r) c). discriminate. }
  destruct (Ascii.eqb ch "/" && String.eqb (peek r) "*") eqn:Ecom.
  { apply andb_prop in Ecom. destruct Ecom as [Es Ecom].
    apply Ascii.eqb_eq in Es. subst ch.
    apply (peek_eq r "*") in Ecom. destruct Ecom as [r2 ->]. unfold advance.
    destruct (skip_block_comment r2 l (S (S c)) l c) as [[[r' l'] c']|e'] eqn:E;
      [discriminate|].
    pose proof (skip_block_comment_error _ _ _ _ _ _ E) as He. subst e'.
    apply skip_block_comment_unclosed in E.
    intros H. injection H as <-. simpl. split; [reflexivity|].
    exists r2. split; [reflexivity|exact E]. }
  destruct (Ascii.eqb ch dquote) eqn:Eq.
  { destruct (scan_string r false (char_str ch) l (S c))
      as [[[[b r'] l'] c']|] eqn:E; [discriminate|].
    intros H. injection H as <-. simpl. split; [reflexivity|].
    apply Ascii.eqb_eq in Eq. subst ch. exists r. split; [reflexivity|].
    apply (scan_string_none_iff r false (char_str dquote) l (S c)). exact E. }
  destruct (isalpha ch || Ascii.eqb ch "_") eqn:Ea.
  { destruct (scan_ident_spec r (char_str ch) (S c))
      as [pre [H1 [H2 [H3 [H4 H5]]]]].
    destruct (scan_ident r (char_str ch) (S c)) as [[ident r'] col'].
    simpl in H1, H2, H3, H5.
    destruct (isupper ident && negb (dict_mem KEYWORDS_MAP ident)) eqn:Eu;
      [|discriminate].
    intros H. injection H as <-. simpl. split; [reflexivity|].
    exists r'. subst ident. apply andb_prop in Eu. destruct Eu as [Eu1 Eu2].
    repeat split.
    - simpl. congruence.
    - simpl. rewrite Ea, H4. reflexivity.
    - exact H5.
    - exact Eu1.
    - destruct (dict_mem KEYWORDS_MAP (String ch pre));
        [discriminate Eu2|reflexivity]. }
  destruct (isdigit ch) eqn:Ed.
  { destruct (scan_number r false (char_str ch) (S c)) as [[b r'] c'].
    discriminate. }
  destruct (str_in (String ch (peek r)) MULTI_CHAR_OPS) eqn:Eop.
  { destruct r as [|c2 r2]; unfold advance; [|discriminate].
    intros H. injection H as <-.
    change (peek EmptyString) with EmptyString in Eop.
    destruct (one_char_op ch Eop) as [->| ->]; auto. }
  destruct (char_in ch symbols) eqn:Es; [discriminate|].
  intros H. injection H as <-. simpl. split; [reflexivity|].
  exists r. split; [reflexivity|]. unfold no_rule_for.
  rewrite Enl, Ebl, Eh, Eq, Ed, Es.
  apply orb_false_elim in Ea. destruct Ea as [-> ->]. reflexivity.
Qed.

(** The converse: at a text that one of the four errors describes, the
    iteration raises that error with the position of the state. *)
Lemma lex_step_raises (s : LexState) (le : LexerError) :
  lexer_error_pos le = (cur_line s, cur_col s) ->
  lexer_error_text le (rest s) ->
  lex_step s = Err (RaiseLexerError le).
Proof.
  destruct le as [l c|l c|id l c|ch l c]; simpl; intros Hpos Htext;
    injection Hpos as -> ->.
  - destruct Htext as [r [Hr Hn]]. unfold lex_step. rewrite Hr.
    change ("/*" ++ r)%string with (String "/" (String "*" r)).
    cbv beta iota zeta.
    change (Ascii.eqb "/" nl) with false.
    change (char_in "/" blanks) with false.
    change (Ascii.eqb "/" "#") with false.
    change (Ascii.eqb "/" "/" && String.eqb (peek (String "*" r)) "*")
      with true.
    cbv beta iota. unfold advance.
    apply (skip_block_comment_unclosed r (cur_line s) (S (S (cur_col s)))
             (cur_line s) (cur_col s)) in Hn.
    rewrite Hn. reflexivity.
  - destruct Htext as [r [Hr Hn]].
    apply (lex_step_unclosed_string s r Hr). exact Hn.
  - destruct Htext as [r [Hr [Hshape [Hend [Hup Hkey]]]]].
    destruct id as [|ch r1]; [discriminate Hshape|].
    simpl in Hshape. apply andb_prop in Hshape. destruct Hshape as [Hch Hall].
    change (String ch r1 ++ r)%string with (String ch (r1 ++ r)) in Hr.
    rewrite (lex_step_ident s ch r1 r Hr Hch Hall Hend), Hup, Hkey.
    reflexivity.
  - destruct Htext as [r [Hr Hno]]. unfold no_rule_for in Hno.
    repeat (apply andb_prop in Hno; destruct Hno as [Hno ?]).
    repeat match goal with
           | H : negb _ = true |- _ => apply negb_true_iff in H
           end.
    assert (Hsl : Ascii.eqb ch "/" = false).
    { destruct (Ascii.eqb_spec ch "/") as [E|]; [|reflexivity].
      subst ch. discriminate. }
    unfold lex_step. rewrite Hr. cbv beta iota zeta.
    repeat match goal with
           | H : _ = false |- _ => rewrite H
           end.
    cbn [andb orb]. cbv beta iota.
    destruct (str_in (String ch (peek r)) MULTI_CHAR_OPS) eqn:Eop.
    + apply op_start_symbol in Eop. congruence.
    + reflexivity.
Qed.

Lemma lex_loop_error_state (f : nat) (s : LexState) (e : LexException) :
  lex_loop f s = Some (Err e) ->
  exists s', lex_reaches s s' /\ rest s' <> EmptyString /\ lex_step s' = Err e.
Proof.
  revert s. induction f as [|f IH]; intros s H;
    destruct s as [r l c t]; destruct r as [|ch r]; simpl in H;
    try discriminate H.
  destruct (lex_step (LexSt (String ch r) l c t)) as [s1|e1] eqn:E.
  - destruct (IH s1 H) as [s' [Hr [Hne Hs]]]. exists s'.
    split; [|auto]. eapply reach_step; [discriminate|exact E|exact Hr].
  - injection H as ->. eexists. split; [apply reach_here|].
    split; [discriminate|exact E].
Qed.

(** [lex] raises exactly the errors that an iteration of its loop raises at
    a state that the loop reaches. *)
Lemma lex_error_iff (source : string) (e : LexException) :
  lex source = Some (Err e) <->
  exists s, lex_reaches (lex_init source) s /\ rest s <> EmptyString /\
            lex_step s = Err e.
Proof.
  split.
  - apply lex_loop_error_state.
  - intros [s [Hreach [Hne Hstep]]]. unfold lex.
    change (String.length source)
      with (String.length (rest (lex_init source))).
    rewrite (lex_reaches_loop _ _ Hreach).
    destruct s as [r l c t]. destruct r as [|ch r]; [simpl in Hne; congruence|].
    simpl. simpl in Hstep. rewrite Hstep. reflexivity.
Qed.

(** C9: a string literal is closed by the first quote read with [escaped]
    clear, whatever characters stand before it, newlines included: the loop
    emits one STRING token whose value is the whole lexeme and goes on
    after the closing quote, at the line and column that the lexeme leads
    to. For [lex] this means: when the loop reaches the opening quote of
    such a literal in a source, it also reaches the state after the closing
    quote, the result of [lex] is the result of scanning on from there, the
    tokens that [lex] returns hold the STRING token right after the tokens
    read before it, and no unterminated-string error that [lex] raises is
    located at this literal; a source that is the literal alone is lexed to
    the STRING token and the final NEWLINE. The unterminated-string error
    is raised by [lex] exactly when the loop reaches a quote that no quote
    up to the end of the input closes, and it carries the position of that
    quote. *)
Theorem string_literal_spans_newlines (s : LexState) (body rest0 : string) :
  rest s = String dquote (body ++ String dquote rest0) ->
  escaped_after false body = false ->
  never_closes false body ->
  lex_step s =
    Ok (LexSt rest0
          (fst (pos_after (String dquote (body ++ char_str dquote))
                          (cur_line s) (cur_col s)))
          (snd (pos_after (String dquote (body ++ char_str dquote))
                          (cur_line s) (cur_col s)))
          (tokens s ++ [Tok "STRING" (String dquote (body ++ char_str dquote))
                            (cur_line s) (cur_col s)])) /\
  (forall s' r, rest s' = String dquote r ->
     (lex_step s' =
        Err (RaiseLexerError (UnclosedString (cur_line s') (cur_col s')))
      <-> never_closes false r)) /\
  (forall source, lex_reaches (lex_init source) s ->
     lex_reaches (lex_init source) (after_literal s body rest0) /\
     lex source = lex_loop (String.length rest0) (after_literal s body rest0) /\
     (forall toks, lex source = Some (Ok toks) ->
        exists more,
          toks = tokens s
                 ++ Tok "STRING" (String dquote (body ++ char_str dquote))
                        (cur_line s) (cur_col s) :: more) /\
     (forall l c,
        lex source = Some (Err (RaiseLexerError (UnclosedString l c))) ->
        (l, c) <> (cur_line s, cur_col s))) /\
  lex (String dquote (body ++ char_str dquote)) =
    Some (Ok [Tok "STRING" (String dquote (body ++ char_str dquote)) 1 1;
              Tok "NEWLINE" (char_str nl)
                  (fst (pos_after (String dquote (body ++ char_str dquote)) 1 1))
                  (snd (pos_after (String dquote (body ++ char_str dquote)) 1 1))]) /\
  (forall source l c,
     lex source = Some (Err (RaiseLexerError (UnclosedString l c))) <->
     exists s0 r,
       lex_reaches (lex_init source) s0 /\ rest s0 = String dquote r /\
       never_closes false r /\ (cur_line s0, cur_col s0) = (l, c)) /\
  (forall r, never_closes false r ->
     lex (String dquote r) = Some (Err (RaiseLexerError (UnclosedString 1 1)))).
Proof.
  intros Hr He Hn.
  assert (Hafter : forall s1 r1,
            rest s1 = String dquote (body ++ String dquote r1) ->
            forall source, lex_reaches (lex_init source) s1 ->
            lex_reaches (lex_init source) (after_literal s1 body r1) /\
            lex source =
              lex_loop (String.length r1) (after_literal s1 body r1)).
  { intros s1 r1 Hr1 source Hreach.
    assert (Hreach' : lex_reaches (lex_init source) (after_literal s1 body r1)).
    { apply (lex_reaches_snoc _ s1); [exact Hreach| |].
      - rewrite Hr1. discriminate.
      - apply lex_step_string; assumption. }
    split; [exact Hreach'|]. unfold lex.
    change (String.length source)
      with (String.length (rest (lex_init source))).
    rewrite (lex_reaches_loop _ _ Hreach'). reflexivity. }
  assert (Hiff : forall source l c,
            lex source = Some (Err (RaiseLexerError (UnclosedString l c))) <->
            exists s0 r,
              lex_reaches (lex_init source) s0 /\ rest s0 = String dquote r /\
              never_closes false r /\ (cur_line s0, cur_col s0) = (l, c)).
  { intros source l c. rewrite lex_error_iff. split.
    - intros [s0 [Hreach [_ Hstep]]]. apply lex_step_error in Hstep.
      destruct Hstep as [Hpos [r [Hr0 Hn0]]]. simpl in Hpos.
      exists s0, r. auto.
    - intros [s0 [r [Hreach [Hr0 [Hn0 Hpos]]]]]. exists s0.
      split; [exact Hreach|]. split; [rewrite Hr0; discriminate|].
      injection Hpos as <- <-. apply (lex_step_unclosed_string s0 r Hr0).
      exact Hn0. }
  split; [apply lex_step_string; assumption|].
  split; [intros s' r Hs'; apply lex_step_unclosed_string; exact Hs'|].
  split; [|split; [|split; [exact Hiff|]]].
  - intros source Hreach.
    destruct (Hafter s rest0 Hr source Hreach) as [Hreach' Hlex].
    split; [exact Hreach'|]. split; [exact Hlex|]. split.
    + intros toks Ht. rewrite Hlex in Ht.
      apply lex_loop_tokens_prefix in Ht. destruct Ht as [more ->].
      exists more. unfold after_literal. cbn [tokens].
      rewrite <- app_assoc. reflexivity.
    + intros l c Herr Hpos. rewrite Hlex in Herr.
      apply lex_loop_error_state in Herr.
      destruct Herr as [s0 [Hr0 [_ Hstep]]].
      apply lex_step_error in Hstep. destruct Hstep as [Hp0 _].
      simpl in Hp0.
      destruct (lex_reaches_inv _ _ Hr0) as [pre [new [_ [Hp _]]]].
      unfold after_literal in Hp. cbn [cur_line cur_col] in Hp.
      rewrite <- pos_after_app, <- Hp0 in Hp.
      apply pos_after_forward in Hp. injection Hpos as -> ->.
      destruct Hp as [_ Hp]. specialize (Hp eq_refl). simpl in Hp. lia.
  - destruct (Hafter (lex_init (String dquote (body ++ char_str dquote)))
                EmptyString eq_refl _ (reach_here _)) as [_ Hlex].
    rewrite Hlex. reflexivity.
  - intros r Hn0. apply Hiff. exists (lex_init (String dquote r)), r.
    split; [apply reach_here|]. auto.
Qed.

Lemma newline_body_never_closes : never_closes false newline_body.
Proof.
  intros a b E. unfold newline_body in E.
  repeat (destruct a as [|? a]; simpl in E;
          [discriminate E|injection E as <- E]).
  destruct a; discriminate E.
Defined.

Lemma string_literal_spans_newlines_witness :
  lex_step (lex_init (String dquote (newline_body ++ char_str dquote))) =
    Ok (LexSt EmptyString
          (fst (pos_after (String dquote (newline_body ++ char_str dquote)) 1 1))
          (snd (pos_after (String dquote (newline_body ++ char_str dquote)) 1 1))
          ([] ++ [Tok "STRING" (String dquote (newline_body ++ char_str dquote))
                      1 1])) /\
  (forall s' r, rest s' = String dquote r ->
     (lex_step s' =
        Err (RaiseLexerError (UnclosedString (cur_line s') (cur_col s')))
      <-> never_closes false r)) /\
  (forall source,
     lex_reaches (lex_init source)
       (lex_init (String dquote (newline_body ++ char_str dquote))) ->
     lex_reaches (lex_init source)
       (after_literal
          (lex_init (String dquote (newline_body ++ char_str dquote)))
          newline_body EmptyString) /\
     lex source =
       lex_loop 0
         (after_literal
            (lex_init (String dquote (newline_body ++ char_str dquote)))
            newline_body EmptyString) /\
     (forall toks, lex source = Some (Ok toks) ->
        exists more,
          toks = []
                 ++ Tok "STRING"
                        (String dquote (newline_body ++ char_str dquote))
                        1 1 :: more) /\
     (forall l c,
        lex source = Some (Err (RaiseLexerError (UnclosedString l c))) ->
        (l, c) <> (1, 1))) /\
  lex (String dquote (newline_body ++ char_str dquote)) =
    Some (Ok [Tok "STRING" (String dquote (newline_body ++ char_str dquote))
                  1 1;
              Tok "NEWLINE" (char_str nl) 2 3]) /\
  (forall source l c,
     lex source = Some (Err (RaiseLexerError (UnclosedString l c))) <->
     exists s0 r,
       lex_reaches (lex_init source) s0 /\ rest s0 = String dquote r /\
       never_closes false r /\ (cur_line s0, cur_col s0) = (l, c)) /\
  (forall r, never_closes false r ->
     lex (String dquote r) = Some (Err (RaiseLexerError (UnclosedString 1 1)))).
Proof.
  apply (string_literal_spans_newlines
           (lex_init (String dquote (newline_body ++ char_str dquote)))
           newline_body EmptyString).
  - reflexivity.
  - reflexivity.
  - exact newline_body_never_closes.
Defined.

Example newline_literal_lexed :
  lex (String dquote (newline_body ++ char_str dquote)) =
  Some (Ok [Tok "STRING" (String dquote (newline_body ++ char_str dquote)) 1 1;
            Tok "NEWLINE" (char_str nl) 2 3]).
Proof. vm_compute. reflexivity. Qed.

(** ** C10: every token of the lexer has a rule in the translator *)

Lemma translate_step_known (st : TransState) (t : Token) (e : ParseError) :
  known_kind t = true -> translate_step st t = Err e -> e = UnmatchedClose.
Proof.
  intros Hk H. pose proof (translate_step_spec st t) as Hs. rewrite H in Hs.
  destruct Hs as [[Hf _]|[_ [_ ->]]]; congruence.
Qed.

(** C10: the tokens returned by [lex] are all of the fourteen kinds for
    which the loop of [translate] has a rule; on any such token a step of
    the loop can only raise the unmatched-close error, so on the tokens of
    [lex] the unexpected-token error is never raised and [translate] fails
    only with one of the two brace errors. *)
Theorem lexed_tokens_have_rules (source : string) (toks : list Token) :
  lex source = Some (Ok toks) ->
  forallb known_kind toks = true /\
  (forall st t, In (kind t) lexer_kinds -> forall e,
     translate_step st t = Err e -> e = UnmatchedClose) /\
  (forall t, translate toks <> Err (UnexpectedToken t)) /\
  (forall e, translate toks = Err e ->
     e = UnmatchedClose \/ e = UnclosedBlock) /\
  (forall e, lex_then_translate source = Some (Err (ParseFailure e)) ->
     e = UnmatchedClose \/ e = UnclosedBlock).
Proof.
  intros H.
  assert (Hk : forallb known_kind toks = true).
  { apply (lex_loop_known _ _ _ (eq_refl : forallb known_kind
             (tokens (lex_init source)) = true) H). }
  assert (He : forall e, translate toks = Err e ->
                         e = UnmatchedClose \/ e = UnclosedBlock).
  { intros e E. pose proof (translate_spec toks) as Hs. rewrite E in Hs.
    destruct Hs as [[Hf _]|[[_ ->]|[_ [_ ->]]]]; [congruence|auto|auto]. }
  split; [exact Hk|]. split; [|split; [|split]].
  - intros st t Hin e E. apply (translate_step_known st t); [|exact E].
    unfold known_kind, str_in. apply existsb_exists.
    exists (kind t). split; [exact Hin|apply String.eqb_refl].
  - intros t E. destruct (He _ E); discriminate.
  - exact He.
  - intros e E. unfold lex_then_translate in E. rewrite H in E.
    destruct (translate toks) as [py|e'] eqn:Et; [discriminate E|].
    injection E as <-. apply He. reflexivity.
Qed.

Lemma lexed_tokens_have_rules_witness :
  forallb known_kind lone_else = true /\
  (forall st t, In (kind t) lexer_kinds -> forall e,
     translate_step st t = Err e -> e = UnmatchedClose) /\
  (forall t, translate lone_else <> Err (UnexpectedToken t)) /\
  (forall e, translate lone_else = Err e ->
     e = UnmatchedClose \/ e = UnclosedBlock) /\
  (forall e, lex_then_translate "SENAO_OPERADOR { }"
             = Some (Err (ParseFailure e)) ->
     e = UnmatchedClose \/ e = UnclosedBlock).
Proof.
  apply (lexed_tokens_have_rules "SENAO_OPERADOR { }" lone_else).
  vm_compute. reflexivity.
Defined.

(** * Further properties *)

(** ** Lexemes *)

Lemma scan_string_ends (s : string) (esc : bool) (buf : string) (l c : nat)
  buf' r' l' c' :
  scan_string s esc buf l c = Some (buf', r', l', c') ->
  exists body, buf' = (buf ++ body ++ char_str dquote)%string.
Proof.
  revert esc buf l c. induction s as [|ch r IH]; intros esc buf l c;
    [discriminate|].
  rewrite scan_string_step.
  destruct (negb esc && Ascii.eqb ch dquote && negb (Ascii.eqb ch backslash))
    eqn:E.
  - intros H. injection H as <- _ _ _.
    apply andb_prop in E. destruct E as [E _].
    apply andb_prop in E. destruct E as [_ E].
    apply Ascii.eqb_eq in E. subst ch. exists EmptyString. reflexivity.
  - intros H. apply IH in H. destruct H as [body ->].
    exists (String ch body). rewrite append_snoc. reflexivity.
Qed.

Lemma string_lexeme_quoted (body : string) :
  string_lexeme (String dquote (body ++ char_str dquote)) = true.
Proof.
  unfold string_lexeme.
  change (chars (String dquote (body ++ char_str dquote)))
    with (dquote :: chars (body ++ char_str dquote)).
  rewrite chars_append. cbn [rev]. rewrite rev_app_distr.
  change (rev (chars (char_str dquote))) with [dquote].
  destruct (chars body); reflexivity.
Qed.

Lemma scan_number_dots (s : string) (fl : bool) (buf : string) (col : nat) :
  exists pre,
    fst (fst (scan_number s fl buf col)) = (buf ++ pre)%string /\
    count_dots pre <= (if fl then 0 else 1).
Proof.
  revert fl buf col. induction s as [|ch r IH]; intros fl buf col.
  - exists EmptyString. simpl. rewrite append_nil_r.
    split; [reflexivity|]. unfold count_dots. simpl. lia.
  - simpl. destruct (isdigit ch || Ascii.eqb ch "." && negb fl) eqn:E.
    + destruct (IH (if Ascii.eqb ch "." then true else fl)
                   (buf ++ char_str ch)%string (S col)) as [pre [H1 H2]].
      exists (String ch pre). split; [rewrite H1; apply append_snoc|].
      unfold count_dots in *. cbn [chars list_ascii_of_string filter].
      fold (chars pre).
      destruct (Ascii.eqb ch ".") eqn:Ed.
      * simpl. destruct fl.
        -- rewrite andb_false_r, orb_false_r in E.
           apply Ascii.eqb_eq in Ed. subst ch. discriminate E.
        -- lia.
      * destruct fl; exact H2.
    + exists EmptyString. simpl. rewrite append_nil_r.
      split; [reflexivity|]. unfold count_dots. simpl. lia.
Qed.

Lemma symbol_kind_cases (ch : ascii) :
  In (symbol_kind ch)
     ["LBRACE"; "RBRACE"; "LPAREN"; "RPAREN"; "LBRACK"; "RBRACK"; "SEMI";
      "COMMA"; "DOT"; "OP"].
Proof.
  unfold symbol_kind.
  repeat match goal with
         | |- context [Ascii.eqb ch ?x] => destruct (Ascii.eqb ch x)
         end; simpl; tauto.
Qed.

Lemma lexeme_ok_symbol (ch : ascii) (l c : nat) :
  char_in ch symbols = true ->
  lexeme_ok (Tok (symbol_kind ch) (char_str ch) l c) = true.
Proof.
  intros H. unfold lexeme_ok, symbol_lexeme. cbn [kind value char_str].
  rewrite H, String.eqb_refl. apply orb_true_r.
Qed.

(** One iteration of the lexer loop consumes the text [pre]; when it emits
    a token, the value of the token is [pre] and its position is the one the
    loop held. *)
Lemma lex_step_emits (s s' : LexState) :
  rest s <> EmptyString -> lex_step s = Ok s' ->
  exists pre,
    pre <> EmptyString /\ rest s = (pre ++ rest s')%string /\
    pos_after pre (cur_line s) (cur_col s) = (cur_line s', cur_col s') /\
    (tokens s' = tokens s \/
     exists k, tokens s' = tokens s ++ [Tok k pre (cur_line s) (cur_col s)] /\
               lexeme_ok (Tok k pre (cur_line s) (cur_col s)) = true).
Proof.
  destruct s as [src l c toks]. simpl. intros Hne.
  destruct src as [|ch r]; [congruence|]. clear Hne.
  unfold lex_step. cbn [rest cur_line cur_col tokens]. cbv beta iota zeta.
  destruct (Ascii.eqb ch nl) eqn:Enl.
  { intros H. injection H as <-. apply Ascii.eqb_eq in Enl. subst ch.
    exists (char_str nl). simpl.
    repeat split; [discriminate|]. right. eexists. split; reflexivity. }
  destruct (char_in ch blanks).
  { intros H. injection H as <-. exists (char_str ch). simpl.
    rewrite Enl. repeat split; [discriminate|auto]. }
  destruct (Ascii.eqb ch "#").
  { simpl skip_line_comment. rewrite Enl.
    destruct (skip_line_comment_spec r (S c)) as [pre [H1 H2]].
    destruct (skip_line_comment r (S c)) as [r' col']. simpl in H1, H2.
    intros H. injection H as <-. exists (String ch pre). simpl.
    rewrite Enl, H2. repeat split; [discriminate|congruence|auto]. }
  destruct (Ascii.eqb ch "/" && String.eqb (peek r) "*") eqn:Ecom.
  { apply andb_prop in Ecom. destruct Ecom as [_ Ecom].
    apply (peek_eq r "*") in Ecom. destruct Ecom as [r2 ->]. unfold advance.
    destruct (skip_block_comment r2 l (S (S c)) l c) as [[[r' l'] c']|e] eqn:E;
      [|intros H; discriminate H].
    apply skip_block_comment_spec in E. destruct E as [pre [H1 H2]].
    intros H. injection H as <-. exists (String ch (String "*" pre)).
    simpl. rewrite Enl.
    repeat split; [discriminate|congruence|exact H2|auto]. }
  destruct (Ascii.eqb ch dquote) eqn:Eq.
  { destruct (scan_string r false (char_str ch) l (S c))
      as [[[[buf r'] l'] c']|] eqn:E; [|intros H; discriminate H].
    pose proof (scan_string_ends _ _ _ _ _ _ _ _ _ E) as [body Hb].
    apply scan_string_spec in E. destruct E as [pre [H1 [H2 [_ H4]]]].
    simpl in H2, Hb.
    intros H. injection H as <-. exists (String ch pre).
    simpl. rewrite Enl.
    repeat split; [discriminate|congruence|exact H4|].
    right. exists "STRING". split; [unfold emit; congruence|].
    assert (Hpre : pre = (body ++ char_str dquote)%string) by congruence.
    apply Ascii.eqb_eq in Eq. subst ch pre.
    unfold lexeme_ok. cbn [kind value].
    rewrite string_lexeme_quoted. reflexivity. }
  destruct (isalpha ch || Ascii.eqb ch "_") eqn:Ea.
  { destruct (scan_ident_spec r (char_str ch) (S c))
      as [pre [H1 [H2 [H3 [H4 H5]]]]].
    destruct (scan_ident r (char_str ch) (S c)) as [[ident r'] col'].
    simpl in H1, H2, H3, H5.
    destruct (isupper ident && negb (dict_mem KEYWORDS_MAP ident)) eqn:Eu;
      [intros H; discriminate H|].
    intros H. injection H as <-. exists (String ch pre).
    simpl. rewrite Enl.
    rewrite (pos_after_no_nl pre ident_char l (S c) ident_char_not_nl H4).
    repeat split; [discriminate|congruence|f_equal; lia|].
    right. exists "IDENT". split; [unfold emit; congruence|].
    subst ident. unfold lexeme_ok, ident_lexeme. cbn [kind value].
    cbn [ident_shaped]. rewrite Ea, H4.
    destruct (isupper (String ch pre)); destruct (dict_mem KEYWORDS_MAP (String ch pre));
      try discriminate Eu; reflexivity. }
  destruct (isdigit ch) eqn:Ed.
  { destruct (scan_number_spec r false (char_str ch) (S c))
      as [pre [H1 [H2 [H3 H4]]]].
    destruct (scan_number_dots r false (char_str ch) (S c)) as [pre' [H2' H5]].
    destruct (scan_number r false (char_str ch) (S c)) as [[buf r'] col'].
    simpl in H1, H2, H3, H2'.
    assert (pre' = pre) by congruence. subst pre'.
    intros H. injection H as <-. exists (String ch pre).
    simpl. rewrite Enl.
    rewrite (pos_after_no_nl pre number_char l (S c) number_char_nl H4).
    repeat split; [discriminate|congruence|f_equal; lia|].
    right. exists "NUMBER". split; [unfold emit; congruence|].
    unfold lexeme_ok. cbn [kind value number_lexeme].
    rewrite Ed, H4. apply Nat.leb_le in H5. rewrite H5. reflexivity. }
  destruct (str_in (String ch (peek r)) MULTI_CHAR_OPS) eqn:Eop.
  { destruct r as [|c2 r2]; unfold advance; [intros H; discriminate H|].
    change (peek (String c2 r2)) with (char_str c2) in Eop.
    pose proof (two_char_op_no_nl _ _ Eop) as Hc2.
    intros H. injection H as <-. exists (String ch (char_str c2)).
    simpl. rewrite Enl, Hc2. repeat split; [discriminate|].
    right. exists "OP". split; [reflexivity|].
    unfold lexeme_ok. cbn [kind value]. rewrite Eop.
    rewrite !orb_false_r. reflexivity. }
  destruct (char_in ch symbols) eqn:Es; [|intros H; discriminate H].
  intros H. injection H as <-. exists (char_str ch).
  simpl. rewrite Enl. repeat split; [discriminate|].
  right. exists (symbol_kind ch). split; [reflexivity|].
  apply lexeme_ok_symbol. exact Es.
Qed.

(** ** Tokens and their places in the source *)

Lemma placed_gap (pre r : string) (l c : nat) (toks : list Token) :
  placed r (fst (pos_after pre l c)) (snd (pos_after pre l c)) toks ->
  placed (pre ++ r) l c toks.
Proof.
  destruct toks as [|t toks]; simpl; [auto|].
  intros [gap [post [Hr [Hp Hrest]]]].
  exists (pre ++ gap)%string, post. repeat split.
  - rewrite Hr. symmetry. apply append_assoc.
  - rewrite pos_after_app. exact Hp.
  - rewrite append_assoc, pos_after_app. exact Hrest.
Qed.

Lemma lex_loop_placed (f : nat) (s : LexState) (toks : list Token) :
  lex_loop f s = Some (Ok toks) ->
  exists new,
    toks = tokens s ++ new
           ++ [Tok "NEWLINE" (char_str nl)
                   (fst (pos_after (rest s) (cur_line s) (cur_col s)))
                   (snd (pos_after (rest s) (cur_line s) (cur_col s)))] /\
    placed (rest s) (cur_line s) (cur_col s) new /\
    forallb lexeme_ok new = true.
Proof.
  revert s. induction f as [|f IH]; intros s H;
    destruct s as [r l c t]; destruct r as [|ch r]; simpl in H.
  - injection H as <-. exists []. simpl. auto.
  - discriminate.
  - injection H as <-. exists []. simpl. auto.
  - destruct (lex_step (LexSt (String ch r) l c t)) as [s'|e] eqn:E;
      [|discriminate].
    destruct (IH s' H) as [new [Ht [Hpl Hok]]].
    apply lex_step_emits in E; [|discriminate].
    destruct E as [pre [_ [Hr [Hpos Htok]]]].
    cbn [rest cur_line cur_col tokens] in *.
    assert (Hend : pos_after (String ch r) l c =
                   pos_after (rest s') (cur_line s') (cur_col s')).
    { rewrite Hr, pos_after_app, Hpos. reflexivity. }
    rewrite Hend.
    destruct Htok as [Hsame|[k [Hnew Hk]]].
    + exists new. rewrite Ht, Hsame. split; [reflexivity|]. split; [|exact Hok].
      rewrite Hr. apply placed_gap. rewrite Hpos. exact Hpl.
    + exists (Tok k pre l c :: new). rewrite Ht, Hnew, <- app_assoc.
      split; [reflexivity|]. split.
      * simpl. exists EmptyString, (rest s'). repeat split.
        -- exact Hr.
        -- simpl. rewrite Hpos. exact Hpl.
      * simpl. rewrite Hk, Hok. reflexivity.
Qed.

(** X1: the tokens that [lex] returns are the pieces of the source it kept,
    in the order of the source: each one stands in the source at the line
    and column it carries (counted from 1), after the text skipped since the
    token before; they are followed by one NEWLINE token placed at the end
    of the source. *)
Theorem lexed_tokens_placed (source : string) (toks : list Token) :
  lex source = Some (Ok toks) ->
  exists body l c,
    toks = body ++ [Tok "NEWLINE" (char_str nl) l c] /\
    (l, c) = pos_after source 1 1 /\
    placed source 1 1 body.
Proof.
  intros H. apply lex_loop_placed in H. destruct H as [new [Ht [Hp _]]].
  exists new. eexists. eexists. split; [exact Ht|]. split; [|exact Hp].
  simpl. destruct (pos_after source 1 1). reflexivity.
Qed.

Lemma lexed_tokens_placed_witness :
  exists body l c,
    lone_else = body ++ [Tok "NEWLINE" (char_str nl) l c] /\
    (l, c) = pos_after "SENAO_OPERADOR { }" 1 1 /\
    placed "SENAO_OPERADOR { }" 1 1 body.
Proof.
  apply (lexed_tokens_placed "SENAO_OPERADOR { }" lone_else).
  vm_compute. reflexivity.
Defined.

Lemma lex_tokens_lexeme_ok (source : string) (toks : list Token) :
  lex source = Some (Ok toks) -> forallb lexeme_ok toks = true.
Proof.
  intros H. apply lex_loop_placed in H. destruct H as [new [-> [_ Hok]]].
  simpl. rewrite forallb_app, Hok. reflexivity.
Qed.

Lemma lexeme_ok_kind (t : Token) :
  lexeme_ok t = true ->
  (kind t = "NEWLINE" /\ value t = char_str nl) \/
  (kind t = "STRING" /\ string_lexeme (value t) = true) \/
  (kind t = "IDENT" /\ ident_lexeme (value t) = true) \/
  (kind t = "NUMBER" /\ number_lexeme (value t) = true) \/
  (kind t = "OP" /\ String.length (value t) = 2 /\
   str_in (value t) MULTI_CHAR_OPS = true) \/
  (exists ch, value t = char_str ch /\ char_in ch symbols = true /\
              kind t = symbol_kind ch).
Proof.
  unfold lexeme_ok. intros H.
  apply orb_prop in H. destruct H as [H|H].
  apply orb_prop in H. destruct H as [H|H].
  apply orb_prop in H. destruct H as [H|H].
  apply orb_prop in H. destruct H as [H|H].
  apply orb_prop in H. destruct H as [H|H].
  - apply andb_prop in H. destruct H as [H1 H2].
    apply String.eqb_eq in H1. apply String.eqb_eq in H2. auto.
  - apply andb_prop in H. destruct H as [H1 H2].
    apply String.eqb_eq in H1. auto 10.
  - apply andb_prop in H. destruct H as [H1 H2].
    apply String.eqb_eq in H1. auto 10.
  - apply andb_prop in H. destruct H as [H1 H2].
    apply String.eqb_eq in H1. auto 10.
  - apply andb_prop in H. destruct H as [H H3].
    apply andb_prop in H. destruct H as [H1 H2].
    apply String.eqb_eq in H1. apply Nat.eqb_eq in H2. auto 10.
  - unfold symbol_lexeme in H. destruct (value t) as [|ch [|? ?]];
      try discriminate H.
    apply andb_prop in H. destruct H as [H1 H2].
    apply String.eqb_eq in H2. do 5 right. exists ch. auto.
Qed.

(** X2: every IDENT token that [lex] returns is an identifier (a letter or
    underscore, then letters, digits and underscores), and when it is
    upper-case it is a key of the keyword table, so that [translate] finds a
    Python spelling for it. *)
Theorem lexed_idents_known (source : string) (toks : list Token) (t : Token) :
  lex source = Some (Ok toks) -> In t toks -> kind t = "IDENT" ->
  ident_shaped (value t) = true /\
  (isupper (value t) = true ->
   exists mapped, dict_get KEYWORDS_MAP (value t) = Some mapped).
Proof.
  intros H Hin Hk. apply lex_tokens_lexeme_ok in H.
  rewrite forallb_forall in H. specialize (H t Hin).
  apply lexeme_ok_kind in H.
  destruct H as [[E _]|[[E _]|[[_ H]|[[E _]|[[E _]|[ch [_ [_ E]]]]]]]];
    try congruence.
  - unfold ident_lexeme in H. apply andb_prop in H. destruct H as [H1 H2].
    split; [exact H1|]. intros Hup. rewrite Hup in H2. simpl in H2.
    unfold dict_mem, str_in in H2. apply existsb_exists in H2.
    destruct H2 as [k [Hink Hkeq]]. apply String.eqb_eq in Hkeq. subst k.
    clear -Hink. unfold KEYWORDS_MAP in *. simpl in Hink.
    repeat (destruct Hink as [<-|Hink]; [eexists; reflexivity|]).
    destruct Hink.
  - pose proof (symbol_kind_cases ch) as Hc. rewrite <- E, Hk in Hc.
    simpl in Hc. repeat (destruct Hc as [Hc|Hc]; [discriminate Hc|]).
    destruct Hc.
Qed.

Lemma lexed_idents_known_witness :
  ident_shaped "SENAO_OPERADOR" = true /\
  (isupper "SENAO_OPERADOR" = true ->
   exists mapped, dict_get KEYWORDS_MAP "SENAO_OPERADOR" = Some mapped).
Proof.
  apply (lexed_idents_known "SENAO_OPERADOR { }" lone_else
           (Tok "IDENT" "SENAO_OPERADOR" 1 1)).
  - vm_compute. reflexivity.
  - left. reflexivity.
  - reflexivity.
Defined.

(** X3: every NUMBER token that [lex] returns starts with a digit and holds
    only digits and at most one decimal point: a second point is left for
    the next token. *)
Theorem lexed_numbers_one_point (source : string) (toks : list Token)
  (t : Token) :
  lex source = Some (Ok toks) -> In t toks -> kind t = "NUMBER" ->
  exists c r,
    value t = String c r /\ isdigit c = true /\
    forallb number_char (chars r) = true /\ count_dots r <= 1.
Proof.
  intros H Hin Hk. apply lex_tokens_lexeme_ok in H.
  rewrite forallb_forall in H. specialize (H t Hin).
  apply lexeme_ok_kind in H.
  destruct H as [[E _]|[[E _]|[[E _]|[[_ H]|[[E _]|[ch [_ [_ E]]]]]]]];
    try congruence.
  - unfold number_lexeme in H. destruct (value t) as [|c r]; [discriminate H|].
    apply andb_prop in H. destruct H as [H H3].
    apply andb_prop in H. destruct H as [H1 H2].
    exists c, r. repeat split; auto. apply Nat.leb_le. exact H3.
  - pose proof (symbol_kind_cases ch) as Hc. rewrite <- E, Hk in Hc.
    simpl in Hc. repeat (destruct Hc as [Hc|Hc]; [discriminate Hc|]).
    destruct Hc.
Qed.

Lemma lexed_numbers_one_point_witness :
  exists c r,
    "1.5" = String c r /\ isdigit c = true /\
    forallb number_char (chars r) = true /\ count_dots r <= 1.
Proof.
  apply (lexed_numbers_one_point "1.5.2"
           [Tok "NUMBER" "1.5" 1 1; Tok "DOT" "." 1 4; Tok "NUMBER" "2" 1 5;
            Tok "NEWLINE" (char_str nl) 1 6]
           (Tok "NUMBER" "1.5" 1 1)).
  - vm_compute. reflexivity.
  - left. reflexivity.
  - reflexivity.
Defined.

Ltac table_cases x Hx tac :=
  unfold str_in, table_symbols in Hx; simpl existsb in Hx;
  repeat match type of Hx with
         | context [Ascii.eqb x ?y] =>
             let E := fresh "E" in
             destruct (Ascii.eqb_spec x y) as [E|?];
             [subst x; clear Hx; tac|]
         end;
  simpl in Hx; discriminate Hx.

Lemma symbol_kind_table (ch x : ascii) :
  str_in (char_str x) table_symbols = true ->
  symbol_kind ch = symbol_kind x -> ch = x.
Proof.
  intros Hx H.
  table_cases x Hx
    ltac:(match type of H with
          | _ = ?rhs => let v := eval vm_compute in rhs in
                        change rhs with v in H
          end;
          unfold symbol_kind in H;
          repeat match type of H with
                 | context [Ascii.eqb ch ?y] =>
                     destruct (Ascii.eqb_spec ch y); try discriminate H
                 end; auto).
Qed.

(** X4: on the tokens that [lex] returns, the kind tells the text for the
    nine symbols of the table and for the newline: a token is an LBRACE
    exactly when its value is the brace, and so on; no string, identifier,
    number or operator token carries one of these kinds. *)
Theorem lexed_symbol_kinds (source : string) (toks : list Token) (t : Token) :
  lex source = Some (Ok toks) -> In t toks ->
  (forall x, str_in (char_str x) table_symbols = true ->
     (value t = char_str x <-> kind t = symbol_kind x)) /\
  (value t = char_str nl <-> kind t = "NEWLINE").
Proof.
  intros H Hin. apply lex_tokens_lexeme_ok in H.
  rewrite forallb_forall in H. specialize (H t Hin). clear Hin.
  apply lexeme_ok_kind in H. destruct t as [k v l c]. cbn [kind value] in *.
  assert (Hsym : forall x, str_in (char_str x) table_symbols = true ->
            symbol_kind x <> "NEWLINE" /\ symbol_kind x <> "STRING" /\
            symbol_kind x <> "IDENT" /\ symbol_kind x <> "NUMBER" /\
            symbol_kind x <> "OP" /\ string_lexeme (char_str x) = false /\
            ident_lexeme (char_str x) = false /\
            number_lexeme (char_str x) = false /\ x <> nl).
  { intros x Hx.
    table_cases x Hx ltac:(repeat split; try discriminate; reflexivity). }
  destruct H as [[-> ->]|[[-> H]|[[-> H]|[[-> H]|[[-> [H1 H2]]|[ch [-> [H1 ->]]]]]]]].
  - split.
    + intros x Hx. destruct (Hsym x Hx) as [N1 [_ [_ [_ [_ [_ [_ [_ N]]]]]]]].
      split; [intros E; injection E as E; congruence|intros E; congruence].
    + tauto.
  - split.
    + intros x Hx. destruct (Hsym x Hx) as [_ [N [_ [_ [_ [S _]]]]]].
      split; [intros E; congruence|intros E; congruence].
    + split; [intros E; rewrite E in H; discriminate H|discriminate].
  - split.
    + intros x Hx. destruct (Hsym x Hx) as [_ [_ [N [_ [_ [_ [S _]]]]]]].
      split; [intros E; congruence|intros E; congruence].
    + split; [intros E; rewrite E in H; discriminate H|discriminate].
  - split.
    + intros x Hx. destruct (Hsym x Hx) as [_ [_ [_ [N [_ [_ [_ [S _]]]]]]]].
      split; [intros E; congruence|intros E; congruence].
    + split; [intros E; rewrite E in H; discriminate H|discriminate].
  - split.
    + intros x Hx. destruct (Hsym x Hx) as [_ [_ [_ [_ [N _]]]]].
      split; [intros E; rewrite E in H1; discriminate H1|intros E; congruence].
    + split; [intros E; rewrite E in H1; discriminate H1|discriminate].
  - split.
    + intros x Hx. split.
      * intros E. injection E as ->. reflexivity.
      * intros E. f_equal. apply (symbol_kind_table ch x Hx E).
    + split.
      * intros E. injection E as ->. discriminate H1.
      * intros E. pose proof (symbol_kind_cases ch) as Hc. rewrite E in Hc.
        simpl in Hc. repeat (destruct Hc as [Hc|Hc]; [discriminate Hc|]).
        destruct Hc.
Qed.

Lemma lexed_symbol_kinds_witness :
  (forall x, str_in (char_str x) table_symbols = true ->
     (value (Tok "LBRACE" "{" 1 16) = char_str x
      <-> kind (Tok "LBRACE" "{" 1 16) = symbol_kind x)) /\
  (value (Tok "LBRACE" "{" 1 16) = char_str nl
   <-> kind (Tok "LBRACE" "{" 1 16) = "NEWLINE").
Proof.
  apply (lexed_symbol_kinds "SENAO_OPERADOR { }" lone_else).
  - vm_compute. reflexivity.
  - right. left. reflexivity.
Defined.

(** ** Errors of the lexer *)

(** X5: [lex] raises a [LexerError] exactly when its loop reaches a place
    in the source where the offending text starts, and the line and column
    in the error are those (counted from 1) of that place: the two
    characters that open a block comment that nothing closes, the quote of
    a string that no later quote closes, an upper-case identifier, taken up
    to its end, that is no key of the keyword table, or a character that no
    rule of the lexer accepts. *)
Theorem lexer_error_located (source : string) (e : LexerError) :
  lex source = Some (Err (RaiseLexerError e)) <->
  exists s pre,
    lex_reaches (lex_init source) s /\
    source = (pre ++ rest s)%string /\
    lexer_error_pos e = pos_after pre 1 1 /\
    lexer_error_text e (rest s).
Proof.
  rewrite lex_error_iff. split.
  - intros [s [Hreach [_ Hstep]]].
    apply lex_step_error in Hstep. destruct Hstep as [Hpos Htext].
    destruct (lex_reaches_inv _ _ Hreach) as [pre [new [Hsrc [Hp _]]]].
    simpl in Hsrc, Hp. exists s, pre.
    split; [exact Hreach|]. split; [exact Hsrc|].
    split; [congruence|exact Htext].
  - intros [s [pre [Hreach [Hsrc [Hpos Htext]]]]].
    destruct (lex_reaches_inv _ _ Hreach) as [pre' [new [Hsrc' [Hp _]]]].
    simpl in Hsrc', Hp. rewrite Hsrc' in Hsrc at 1.
    apply append_inv_tail in Hsrc. subst pre'.
    exists s. split; [exact Hreach|]. split.
    + destruct e as [l c|l c|id l c|ch l c]; simpl in Htext;
        destruct Htext as [r [Hr Hmore]]; rewrite Hr; try discriminate.
      destruct id as [|ch r1]; [|discriminate].
      destruct Hmore as [Hshape _]. discriminate Hshape.
    + apply lex_step_raises; [congruence|exact Htext].
Qed.

Lemma lexer_error_located_witness :
  exists s pre,
    lex_reaches (lex_init foo_source) s /\
    foo_source = (pre ++ rest s)%string /\
    lexer_error_pos (UnknownKeyword "FOO" 2 3) = pos_after pre 1 1 /\
    lexer_error_text (UnknownKeyword "FOO" 2 3) (rest s).
Proof.
  apply (proj1 (lexer_error_located foo_source (UnknownKeyword "FOO" 2 3))).
  vm_compute. reflexivity.
Defined.

(** A block comment that is closed raises no error, and the error of an
    open one carries the place of the comment that the loop reads, not
    of a later [/*] inside it. *)
Example closed_comment_lexed :
  lex "/* closed */ x" =
  Some (Ok [Tok "IDENT" "x" 1 14; Tok "NEWLINE" (char_str nl) 1 15]).
Proof. vm_compute. reflexivity. Qed.

Example open_comment_located :
  lex "/* /*" = Some (Err (RaiseLexerError (UnclosedComment 1 1))).
Proof. vm_compute. reflexivity. Qed.

(** X6: [lex] raises [IndexError] exactly when the scanning loop comes to
    the last character of the source and that character is [<] or [>]: the
    rule of the two-character operators accepts the single character and
    advances twice. In particular such a source ends with [<] or [>]. *)
Theorem lex_index_error_iff (source : string) :
  (lex source = Some (Err RaiseIndexError) <->
   exists s, lex_reaches (lex_init source) s /\
             (rest s = "<" \/ rest s = ">")) /\
  (lex source = Some (Err RaiseIndexError) ->
   exists pre, source = (pre ++ "<")%string \/ source = (pre ++ ">")%string).
Proof.
  assert (Hfwd : lex source = Some (Err RaiseIndexError) ->
                 exists s, lex_reaches (lex_init source) s /\
                           (rest s = "<" \/ rest s = ">")).
  { intros H. apply lex_loop_error_state in H.
    destruct H as [s [Hreach [_ Hstep]]].
    apply lex_step_error in Hstep. eauto. }
  split; [split; [exact Hfwd|]|].
  - intros [s [Hreach Hrest]]. unfold lex.
    change (String.length source)
      with (String.length (rest (lex_init source))).
    rewrite (lex_reaches_loop _ _ Hreach).
    destruct s as [r l c t]. simpl in Hrest.
    destruct Hrest as [-> | ->]; reflexivity.
  - intros H. destruct (Hfwd H) as [s [Hreach Hrest]].
    destruct (lex_reaches_inv _ _ Hreach) as [pre [new [Hsrc _]]].
    simpl in Hsrc. exists pre. destruct Hrest as [E|E]; rewrite E in Hsrc; auto.
Qed.

(** X7: [lex] terminates on every source: every iteration of the scanning
    loop that does not raise leaves strictly less of the source to read. *)
Theorem lex_terminates (source : string) :
  (exists r, lex source = Some r) /\
  (forall s s', rest s <> EmptyString -> lex_step s = Ok s' ->
     String.length (rest s') < String.length (rest s)).
Proof.
  split.
  - apply lex_loop_total. simpl. lia.
  - intros s s' Hne H. apply (lex_step_shorter s s' Hne H).
Qed.

(** ** Comments, operators and blank sources *)

Lemma skip_line_comment_app (body r : string) (col : nat) :
  no_newline body = true -> at_line_end r = true ->
  skip_line_comment (body ++ r) col = (r, col + String.length body).
Proof.
  revert col. induction body as [|ch body IH]; intros col Hb Hr.
  - simpl. rewrite Nat.add_0_r. destruct r as [|c r]; [reflexivity|].
    simpl in *. rewrite Hr. reflexivity.
  - unfold no_newline in Hb. simpl in Hb. apply andb_prop in Hb.
    destruct Hb as [Hc Hb]. simpl.
    destruct (Ascii.eqb ch nl); [discriminate Hc|].
    rewrite (IH (S col) Hb Hr). f_equal. lia.
Qed.

(** X8: a [#] comment runs to the end of its line: the loop skips it
    without a token, stays on the same line, moves the column by its
    length, and leaves the newline that ends it to be read next. *)
Theorem line_comment_skipped (s : LexState) (body r : string) :
  rest s = String "#" (body ++ r) ->
  no_newline body = true -> at_line_end r = true ->
  lex_step s =
  Ok (LexSt r (cur_line s) (cur_col s + String.length (String "#" body))
            (tokens s)).
Proof.
  intros Hs Hb Hr. unfold lex_step. rewrite Hs. cbv beta iota zeta.
  change (Ascii.eqb "#" nl) with false.
  change (char_in "#" blanks) with false.
  change (Ascii.eqb "#" "#") with true. cbv beta iota.
  change (skip_line_comment (String "#" (body ++ r)) (cur_col s))
    with (skip_line_comment (body ++ r) (S (cur_col s))).
  rewrite (skip_line_comment_app body r _ Hb Hr).
  replace (S (cur_col s) + String.length body)
    with (cur_col s + String.length (String "#" body)) by (simpl; lia).
  reflexivity.
Qed.

Lemma line_comment_skipped_witness :
  lex_step (LexSt (String "#" (" x" ++ String nl "y")) 3 5 []) =
  Ok (LexSt (String nl "y") 3 (5 + String.length (String "#" " x")) []).
Proof.
  apply (line_comment_skipped
           (LexSt (String "#" (" x" ++ String nl "y")) 3 5 [])
           " x" (String nl "y")); reflexivity.
Defined.

Lemma no_comment_end_tail (ch : ascii) (body : string) :
  no_comment_end (String ch body) -> no_comment_end body.
Proof.
  intros H a b E. apply (H (String ch a) b). simpl. f_equal. exact E.
Qed.

Lemma skip_block_comment_app (body r : string) (l c sl sc : nat) :
  no_comment_end body ->
  skip_block_comment (body ++ "*/" ++ r) l c sl sc =
  Ok (r, fst (pos_after (body ++ "*/") l c),
      snd (pos_after (body ++ "*/") l c)).
Proof.
  revert l c. induction body as [|ch body IH]; intros l c Hb.
  - reflexivity.
  - change ((String ch body ++ "*/" ++ r)%string)
      with (String ch (body ++ "*/" ++ r)).
    change ((String ch body ++ "*/")%string) with (String ch (body ++ "*/")).
    cbn [skip_block_comment pos_after].
    pose proof (no_comment_end_tail _ _ Hb) as Hb'.
    destruct (Ascii.eqb ch nl); [apply IH; exact Hb'|].
    destruct (Ascii.eqb ch "*" && String.eqb (peek (body ++ "*/" ++ r)) "/")
      eqn:E; [|apply IH; exact Hb'].
    exfalso. apply andb_prop in E. destruct E as [E1 E2].
    apply Ascii.eqb_eq in E1. subst ch.
    destruct body as [|c2 body]; [discriminate E2|].
    change (peek (String c2 body ++ "*/" ++ r)) with (char_str c2) in E2.
    apply String.eqb_eq in E2. injection E2 as ->.
    apply (Hb EmptyString (body ++ "*")%string). reflexivity.
Qed.

(** X9: a block comment ends at the first [*/] after the two characters
    that open it: the loop skips the comment without a token, whatever it
    holds, and goes on after it at the line and column that its text leads
    to. *)
Theorem block_comment_skipped (s : LexState) (body r : string) :
  rest s = ("/*" ++ body ++ "*/" ++ r)%string ->
  no_comment_end body ->
  lex_step s =
  Ok (LexSt r
        (fst (pos_after ("/*" ++ body ++ "*/") (cur_line s) (cur_col s)))
        (snd (pos_after ("/*" ++ body ++ "*/") (cur_line s) (cur_col s)))
        (tokens s)).
Proof.
  intros Hs Hb. unfold lex_step. rewrite Hs.
  change (("/*" ++ body ++ "*/" ++ r)%string)
    with (String "/" (String "*" (body ++ "*/" ++ r))).
  cbv beta iota zeta.
  change (Ascii.eqb "/" nl) with false.
  change (char_in "/" blanks) with false.
  change (Ascii.eqb "/" "#") with false.
  change (Ascii.eqb "/" "/") with true.
  change (peek (String "*" (body ++ "*/" ++ r))) with "*".
  change (String.eqb "*" "*") with true. cbn [andb]. cbv beta iota.
  cbn [advance]. cbv beta iota.
  rewrite (skip_block_comment_app body r _ _ _ _ Hb). reflexivity.
Qed.

Lemma block_comment_skipped_witness :
  lex_step (LexSt ("/*" ++ String "a" (String nl "*") ++ "*/" ++ "x") 1 1 []) =
  Ok (LexSt "x"
        (fst (pos_after ("/*" ++ String "a" (String nl "*") ++ "*/") 1 1))
        (snd (pos_after ("/*" ++ String "a" (String nl "*") ++ "*/") 1 1))
        []).
Proof.
  apply (block_comment_skipped
           (LexSt ("/*" ++ String "a" (String nl "*") ++ "*/" ++ "x") 1 1 [])
           (String "a" (String nl "*")) "x").
  - reflexivity.
  - intros a b E.
    repeat (destruct a as [|? a]; simpl in E;
            [discriminate E|injection E as <- E]).
    destruct a; discriminate E.
Defined.

(** X10: the two-character operators are read whole: when the text at the
    loop starts with one of them, the loop emits one OP token holding both
    characters and moves two columns to the right. *)
Theorem two_char_operator_munch (s : LexState) (op r : string) :
  In op MULTI_CHAR_OPS -> String.length op = 2 ->
  rest s = (op ++ r)%string ->
  lex_step s =
  Ok (LexSt r (cur_line s) (S (S (cur_col s)))
            (tokens s ++ [Tok "OP" op (cur_line s) (cur_col s)])).
Proof.
  intros Hin Hlen Hs. unfold lex_step. rewrite Hs. clear Hs.
  unfold MULTI_CHAR_OPS, RELATIONALS in Hin. simpl in Hin.
  repeat (destruct Hin as [<-|Hin];
          [try discriminate Hlen; reflexivity|]).
  destruct Hin.
Qed.

Lemma two_char_operator_munch_witness :
  lex_step (LexSt ("<=" ++ "=") 1 4 []) =
  Ok (LexSt "=" 1 (S (S 4)) ([] ++ [Tok "OP" "<=" 1 4])).
Proof.
  apply (two_char_operator_munch (LexSt ("<=" ++ "=") 1 4 []) "<=" "=").
  - simpl. tauto.
  - reflexivity.
  - reflexivity.
Defined.

Lemma lex_loop_blank (f : nat) (s : LexState) :
  blank_source (rest s) = true -> String.length (rest s) <= f ->
  forallb is_newline_token (tokens s) = true ->
  exists toks, lex_loop f s = Some (Ok toks) /\
               forallb is_newline_token toks = true.
Proof.
  revert s. induction f as [|f IH]; intros s Hb Hf Ht;
    destruct s as [r l c t]; destruct r as [|ch r];
    cbn [rest tokens] in *.
  - eexists. split; [reflexivity|]. simpl. rewrite forallb_app, Ht. reflexivity.
  - simpl in Hf. lia.
  - eexists. split; [reflexivity|]. simpl. rewrite forallb_app, Ht. reflexivity.
  - unfold blank_source in Hb. simpl in Hb. apply andb_prop in Hb.
    destruct Hb as [Hc Hb]. simpl in Hf.
    cbn [lex_loop rest]. unfold lex_step. cbn [rest cur_line cur_col tokens].
    cbv beta iota zeta.
    destruct (Ascii.eqb ch nl).
    + apply IH; cbn [rest tokens]; [exact Hb|lia|].
      unfold emit. rewrite forallb_app, Ht. reflexivity.
    + rewrite orb_false_r in Hc. rewrite Hc.
      apply IH; cbn [rest tokens]; [exact Hb|lia|exact Ht].
Qed.

Lemma pop_blank_lines_repeat (n : nat) :
  pop_blank_lines (repeat EmptyString n) = [].
Proof.
  unfold pop_blank_lines. rewrite rev_repeat.
  induction n as [|n IH]; [reflexivity|]. simpl. exact IH.
Qed.

Lemma translate_loop_newlines (toks : list Token) (st : TransState) :
  forallb is_newline_token toks = true -> current (out st) = [] ->
  exists st',
    translate_loop st toks = Ok st' /\ current (out st') = [] /\
    indent (out st') = indent (out st) /\
    lines (out st') = lines (out st) ++ repeat EmptyString (List.length toks).
Proof.
  revert st. induction toks as [|t r IH]; intros st Ht Hc.
  - exists st. simpl. rewrite app_nil_r. auto.
  - simpl in Ht. apply andb_prop in Ht. destruct Ht as [Hk Ht].
    unfold is_newline_token in Hk. cbn [translate_loop].
    unfold translate_step. rewrite Hk. cbn [orb].
    destruct (IH (MkTrans (newline (out st)) (pending_header st) false) Ht
                 eq_refl) as [st' [H1 [H2 [H3 H4]]]].
    exists st'. split; [exact H1|]. split; [exact H2|]. split; [exact H3|].
    rewrite H4. cbn [out newline lines]. rewrite Hc, <- app_assoc.
    reflexivity.
Qed.

(** X11: a source of blanks and newlines only is translated to one newline
    character. *)
Theorem blank_source_translation (source : string) :
  blank_source source = true ->
  lex_then_translate source = Some (Ok (char_str nl)).
Proof.
  intros Hb. unfold lex_then_translate, lex.
  destruct (lex_loop_blank (String.length source) (lex_init source))
    as [toks [Hl Ht]]; [exact Hb|simpl; lia|reflexivity|].
  rewrite Hl.
  destruct (translate_loop_newlines toks trans_init Ht eq_refl)
    as [st [H1 [H2 [H3 H4]]]].
  unfold translate. rewrite H1. unfold get_output. rewrite H2.
  cbn [is_nil negb fst snd lines indent current need_indent].
  rewrite H3, H4. simpl app. rewrite pop_blank_lines_repeat. reflexivity.
Qed.

Lemma blank_source_translation_witness :
  lex_then_translate (String " " (String nl (String tab (String nl "  "))))
  = Some (Ok (char_str nl)).
Proof.
  apply (blank_source_translation
           (String " " (String nl (String tab (String nl "  "))))).
  reflexivity.
Defined.

(** ** Tokens copied to the output *)

Lemma dict_get_none (d : list (string * string)) (k : string) :
  dict_mem d k = false -> dict_get d k = None.
Proof.
  unfold dict_mem, str_in. induction d as [|[k' v] d IH]; [reflexivity|].
  simpl. destruct (String.eqb k k'); [discriminate|exact IH].
Qed.

Lemma plain_step (st : TransState) (t : Token) :
  plain_token t = true ->
  translate_step st t =
  Ok (MkTrans (emit_text (out st) (value t)) (pending_header st) false).
Proof.
  destruct t as [k v l c]. unfold plain_token, translate_step.
  cbn [kind value str_in existsb]. intros H.
  case_kind k "STRING"; [reflexivity|].
  case_kind k "NUMBER"; [reflexivity|].
  case_kind k "OP"; [reflexivity|].
  case_kind k "LPAREN"; [reflexivity|].
  case_kind k "RPAREN"; [reflexivity|].
  case_kind k "LBRACK"; [reflexivity|].
  case_kind k "RBRACK"; [reflexivity|].
  case_kind k "COMMA"; [reflexivity|].
  case_kind k "DOT"; [reflexivity|].
  cbn [orb] in H. apply andb_prop in H. destruct H as [Hk Hm].
  apply String.eqb_eq in Hk. subst k. cbn [String.eqb Ascii.eqb Bool.eqb orb].
  destruct (dict_mem KEYWORDS_MAP v) eqn:Em; [discriminate Hm|].
  unfold emit_mapped_ident. rewrite (dict_get_none _ _ Em).
  destruct (String.eqb_spec v "SENAO_OPERADOR") as [->|_];
    [discriminate Em|reflexivity].
Qed.

Lemma emit_text_started (e : Emitter) (text : string) :
  need_indent e = false ->
  emit_text e text = MkEmitter (lines e) (current e ++ [text]) (indent e) false.
Proof.
  intros H. unfold emit_text, _emit_indent_if_needed.
  destruct e. simpl in *. subst. reflexivity.
Qed.

Lemma plain_loop (toks : list Token) (st : TransState) :
  forallb plain_token toks = true -> need_indent (out st) = false ->
  exists st',
    translate_loop st toks = Ok st' /\
    out st' = MkEmitter (lines (out st))
                        (current (out st) ++ map value toks)
                        (indent (out st)) false.
Proof.
  revert st. induction toks as [|t r IH]; intros st Hp Hn.
  - exists st. split; [reflexivity|]. simpl. rewrite app_nil_r.
    destruct (out st); simpl in *. congruence.
  - simpl in Hp. apply andb_prop in Hp. destruct Hp as [Ht Hp].
    cbn [translate_loop]. rewrite (plain_step st t Ht).
    rewrite (emit_text_started _ _ Hn).
    destruct (IH (MkTrans (MkEmitter (lines (out st))
                                     (current (out st) ++ [value t])
                                     (indent (out st)) false)
                          (pending_header st) false) Hp eq_refl)
      as [st' [H1 H2]].
    exists st'. split; [exact H1|]. rewrite H2. cbn [out lines current indent].
    rewrite <- app_assoc. reflexivity.
Qed.

(** X12: tokens that are neither layout tokens nor keywords are written
    back to back on one line: for strings, numbers, operators, brackets,
    commas, dots and identifiers outside the keyword table, the output is
    the values of the tokens joined with nothing between them, stripped of
    trailing whitespace and ended by a newline. No blank of the source
    between two tokens reaches the output. *)
Theorem plain_tokens_concatenated (toks : list Token) :
  forallb plain_token toks = true ->
  translate toks =
  Ok (rstrip (String.concat EmptyString (map value toks)) ++ char_str nl)%string.
Proof.
  intros Hp. destruct toks as [|t r]; [reflexivity|].
  simpl in Hp. apply andb_prop in Hp. destruct Hp as [Ht Hp].
  unfold translate. cbn [translate_loop]. rewrite (plain_step _ _ Ht).
  destruct (plain_loop r (MkTrans (emit_text (out trans_init) (value t))
                                  (pending_header trans_init) false) Hp eq_refl)
    as [st [H1 H2]].
  rewrite H1. unfold get_output. rewrite H2.
  cbn [out trans_init Emitter_init emit_text _emit_indent_if_needed
       need_indent lines current indent app spaces Nat.mul is_nil negb
       newline fst snd map].
  change (String.concat EmptyString
            (EmptyString :: value t :: map value r))
    with (String.concat EmptyString (value t :: map value r)).
  unfold pop_blank_lines. cbn [rev app drop_while].
  destruct (String.eqb_spec EmptyString
              (rstrip (String.concat EmptyString (value t :: map value r))))
    as [<-|_]; reflexivity.
Qed.

Lemma plain_tokens_concatenated_witness :
  translate [Tok "IDENT" "a" 1 1; Tok "IDENT" "and" 1 3; Tok "IDENT" "b" 1 7] =
  Ok (rstrip (String.concat EmptyString
                (map value [Tok "IDENT" "a" 1 1; Tok "IDENT" "and" 1 3;
                            Tok "IDENT" "b" 1 7])) ++ char_str nl)%string.
Proof.
  apply (plain_tokens_concatenated
           [Tok "IDENT" "a" 1 1; Tok "IDENT" "and" 1 3; Tok "IDENT" "b" 1 7]).
  reflexivity.
Defined.

(** ** Depth and errors of the translator *)

(** X13: when the loop of [translate] completes, the indentation depth it
    leaves is the number of [{] tokens less the number of [}] tokens, and
    no start of the token sequence holds more [}] than [{]. *)
Theorem depth_counts_braces (toks : list Token) (st : TransState) :
  translate_loop trans_init toks = Ok st ->
  indent (out st) + count_kind "RBRACE" toks = count_kind "LBRACE" toks /\
  (forall pre post, toks = pre ++ post ->
     count_kind "RBRACE" pre <= count_kind "LBRACE" pre).
Proof.
  intros H. split.
  - pose proof (translate_loop_spec toks trans_init) as Hs. rewrite H in Hs.
    destruct Hs as [_ [Hb _]]. apply brace_walk_count in Hb. simpl in Hb.
    exact Hb.
  - intros pre post ->. rewrite translate_loop_app in H.
    pose proof (translate_loop_spec pre trans_init) as Hs.
    destruct (translate_loop trans_init pre) as [st1|e]; [|discriminate H].
    destruct Hs as [_ [Hb _]]. apply brace_walk_count in Hb. simpl in Hb. lia.
Qed.

Lemma depth_counts_braces_witness :
  indent (out (MkTrans (MkEmitter ["else:"] [] 1 true) false false))
  + count_kind "RBRACE" [Tok "IDENT" "SENAO_OPERADOR" 1 1; Tok "LBRACE" "{" 1 16]
  = count_kind "LBRACE" [Tok "IDENT" "SENAO_OPERADOR" 1 1; Tok "LBRACE" "{" 1 16]
  /\
  (forall pre post,
     [Tok "IDENT" "SENAO_OPERADOR" 1 1; Tok "LBRACE" "{" 1 16] = pre ++ post ->
     count_kind "RBRACE" pre <= count_kind "LBRACE" pre).
Proof.
  apply (depth_counts_braces
           [Tok "IDENT" "SENAO_OPERADOR" 1 1; Tok "LBRACE" "{" 1 16]).
  vm_compute. reflexivity.
Defined.

Lemma translate_loop_error (toks : list Token) (st : TransState)
  (e : ParseError) :
  translate_loop st toks = Err e ->
  exists pre t post st1,
    toks = pre ++ t :: post /\ translate_loop st pre = Ok st1 /\
    translate_step st1 t = Err e.
Proof.
  revert st. induction toks as [|t r IH]; intros st H; [discriminate H|].
  simpl in H. destruct (translate_step st t) as [st1|e1] eqn:E.
  - destruct (IH st1 H) as [pre [t' [post [st2 [-> [H1 H2]]]]]].
    exists (t :: pre), t', post, st2. simpl. rewrite E. auto.
  - injection H as ->. exists [], t, r, st. auto.
Qed.

(** X14: [translate] fails fast. The unmatched-close and unexpected-token
    errors are raised at the first token the loop cannot process, whatever
    follows it: an RBRACE met when as many [{] as [}] came before, or a
    token of a kind without a rule (the error holds that token). The
    unclosed-block error is raised only after the whole loop has run, when
    more [{] than [}] were read. *)
Theorem translate_fails_fast (toks : list Token) (e : ParseError) :
  translate toks = Err e ->
  (e = UnclosedBlock /\
   (exists st, translate_loop trans_init toks = Ok st) /\
   count_kind "RBRACE" toks < count_kind "LBRACE" toks) \/
  (exists pre t post st,
     toks = pre ++ t :: post /\
     translate_loop trans_init pre = Ok st /\
     translate_step st t = Err e /\
     (forall post', translate (pre ++ t :: post') = Err e) /\
     ((known_kind t = false /\ e = UnexpectedToken t) \/
      (kind t = "RBRACE" /\
       count_kind "LBRACE" pre = count_kind "RBRACE" pre /\
       e = UnmatchedClose))).
Proof.
  unfold translate. intros H.
  destruct (translate_loop trans_init toks) as [st|e1] eqn:El.
  - left. pose proof (get_output_indent (out st)) as Hi.
    destruct (get_output (out st)) as [py o]. simpl in Hi. rewrite Hi in H.
    destruct (indent (out st)) as [|d] eqn:Ed; simpl in H; [discriminate H|].
    injection H as <-. split; [reflexivity|]. split; [eauto|].
    pose proof (translate_loop_spec toks trans_init) as Hs. rewrite El in Hs.
    destruct Hs as [_ [Hb _]]. apply brace_walk_count in Hb. simpl in Hb. lia.
  - right. injection H as ->.
    destruct (translate_loop_error _ _ _ El) as [pre [t [post [st [-> [H1 H2]]]]]].
    exists pre, t, post, st. split; [reflexivity|]. split; [exact H1|].
    split; [exact H2|]. split.
    + intros post'. unfold translate. rewrite translate_loop_app, H1.
      simpl. rewrite H2. reflexivity.
    + pose proof (translate_step_spec st t) as Hs. rewrite H2 in Hs.
      destruct Hs as [[Hk ->]|[Hk [Hd ->]]]; [left; auto|right].
      split; [exact Hk|]. split; [|reflexivity].
      pose proof (translate_loop_spec pre trans_init) as Hp. rewrite H1 in Hp.
      destruct Hp as [_ [Hb _]]. apply brace_walk_count in Hb. simpl in Hb.
      lia.
Qed.

Lemma translate_fails_fast_witness :
  (UnmatchedClose = UnclosedBlock /\
   (exists st, translate_loop trans_init
                 [Tok "RBRACE" "}" 1 1; Tok "WORD" "x" 1 2] = Ok st) /\
   count_kind "RBRACE" [Tok "RBRACE" "}" 1 1; Tok "WORD" "x" 1 2]
   < count_kind "LBRACE" [Tok "RBRACE" "}" 1 1; Tok "WORD" "x" 1 2]) \/
  (exists pre t post st,
     [Tok "RBRACE" "}" 1 1; Tok "WORD" "x" 1 2] = pre ++ t :: post /\
     translate_loop trans_init pre = Ok st /\
     translate_step st t = Err UnmatchedClose /\
     (forall post', translate (pre ++ t :: post') = Err UnmatchedClose) /\
     ((known_kind t = false /\ UnmatchedClose = UnexpectedToken t) \/
      (kind t = "RBRACE" /\
       count_kind "LBRACE" pre = count_kind "RBRACE" pre /\
       UnmatchedClose = UnmatchedClose))).
Proof.
  apply (translate_fails_fast [Tok "RBRACE" "}" 1 1; Tok "WORD" "x" 1 2]).
  vm_compute. reflexivity.
Defined.

(** ** Indentation of the finished lines *)

Lemma concat_empty_cons (a : string) (l : list string) :
  String.concat EmptyString (a :: l) = (a ++ String.concat EmptyString l)%string.
Proof. destruct l; simpl; [rewrite append_nil_r|]; reflexivity. Qed.

Lemma concat_empty_snoc (l : list string) (v : string) :
  String.concat EmptyString (l ++ [v]) = (String.concat EmptyString l ++ v)%string.
Proof.
  induction l as [|a l IH]; [reflexivity|].
  change ((a :: l) ++ [v]) with (a :: (l ++ [v])).
  rewrite !concat_empty_cons, IH, append_assoc. reflexivity.
Qed.

Lemma solid_append (a b : string) : solid a = true -> solid (a ++ b) = true.
Proof. destruct a; [discriminate|auto]. Qed.

Lemma str_app (a b : list ascii) : str (a ++ b) = (str a ++ str b)%string.
Proof. unfold str. induction a; simpl; congruence. Qed.

Lemma drop_while_app_stop {A : Type} (p : A -> bool) (l m : list A) (c : A) :
  p c = false -> drop_while p (l ++ c :: m) = drop_while p l ++ c :: m.
Proof.
  intros Hc. induction l as [|x l IH]; simpl.
  - rewrite Hc. reflexivity.
  - destruct (p x); [exact IH|reflexivity].
Qed.

Lemma drop_while_all {A : Type} (p : A -> bool) (l m : list A) :
  forallb p l = true -> drop_while p (l ++ m) = drop_while p m.
Proof.
  induction l as [|x l IH]; simpl; [reflexivity|].
  intros H. apply andb_prop in H. destruct H as [Hx Hl].
  rewrite Hx. apply IH. exact Hl.
Qed.

Lemma rstrip_solid (p b : string) :
  solid b = true ->
  exists b', rstrip (p ++ b) = (p ++ b')%string /\ solid b' = true.
Proof.
  destruct b as [|c r]; [discriminate|]. simpl. intros Hc.
  assert (Hs : isspace c = false) by (destruct (isspace c); [discriminate|auto]).
  exists (String c (str (rev (drop_while isspace (rev (chars r)))))).
  split; [|simpl; rewrite Hs; reflexivity].
  unfold rstrip. rewrite chars_append.
  change (chars (String c r)) with (c :: chars r).
  rewrite rev_app_distr. cbn [rev]. rewrite <- app_assoc. cbn [app].
  rewrite (drop_while_app_stop isspace _ _ c Hs).
  rewrite rev_app_distr. cbn [rev]. rewrite rev_involutive, <- app_assoc.
  cbn [app]. rewrite str_app, str_chars. reflexivity.
Qed.

Lemma spaces_all_space (n : nat) : forallb isspace (chars (spaces n)) = true.
Proof. induction n as [|n IH]; [reflexivity|]. simpl. exact IH. Qed.

Lemma strip_solid_truthy (n : nat) (b : string) :
  solid b = true -> truthy (strip (spaces n ++ b)) = true.
Proof.
  intros Hb. destruct (rstrip_solid (spaces n) b Hb) as [b' [Hr Hb']].
  unfold strip. rewrite Hr, chars_append.
  rewrite (drop_while_all isspace _ _ (spaces_all_space n)).
  destruct b' as [|c r]; [discriminate Hb'|]. simpl in *.
  destruct (isspace c); [discriminate Hb'|reflexivity].
Qed.

Lemma line_started_fresh (l : list string) (d : nat) :
  line_started (MkEmitter l [] d true).
Proof. left. auto. Qed.

Lemma emit_text_line (e : Emitter) (v : string) :
  line_started e -> solid v = true ->
  line_started (emit_text e v) /\ need_indent (emit_text e v) = false.
Proof.
  intros Hl Hv. destruct e as [ls cur d ni]. unfold line_started in Hl.
  cbn [lines current indent need_indent] in Hl.
  destruct Hl as [[Hn Hc]|[Hn [texts [Hc Hs]]]]; subst;
    unfold emit_text, _emit_indent_if_needed;
    cbn [lines current indent need_indent app];
    (split; [|reflexivity]); right;
    cbn [lines current indent need_indent]; (split; [reflexivity|]).
  - exists [v]. split; [reflexivity|exact Hv].
  - exists (texts ++ [v]). split; [reflexivity|].
    rewrite concat_empty_snoc. apply solid_append. exact Hs.
Qed.

Lemma emit_space_line (e : Emitter) :
  line_started e -> need_indent e = false -> line_started (emit_space e).
Proof.
  intros [[Hn _]|[_ [texts [Hc Hs]]]] Hf; [congruence|].
  unfold emit_space, _emit_indent_if_needed. rewrite Hf.
  match goal with |- context [if ?b then _ else _] => destruct b end.
  - right. cbn [lines current indent need_indent]. split; [exact Hf|].
    rewrite Hc. exists (texts ++ [" "]). split; [reflexivity|].
    rewrite concat_empty_snoc. apply solid_append. exact Hs.
  - right. split; [exact Hf|]. eauto.
Qed.

Lemma newline_line (e : Emitter) :
  line_started e ->
  exists x, lines (newline e) = lines e ++ [x] /\ indented_line (indent e) x.
Proof.
  intros [[_ Hc]|[_ [texts [Hc Hs]]]]; unfold newline;
    cbn [lines]; rewrite Hc; eexists; (split; [reflexivity|]).
  - left. reflexivity.
  - right. rewrite concat_empty_cons. apply rstrip_solid. exact Hs.
Qed.

Lemma keyword_spellings_solid (k m : string) :
  dict_get KEYWORDS_MAP k = Some m -> solid m = true /\ truthy m = true.
Proof.
  unfold KEYWORDS_MAP. simpl.
  repeat match goal with
         | |- context [String.eqb k ?x] =>
             destruct (String.eqb k x);
             [intros H; injection H as <-; split; reflexivity|]
         end.
  discriminate.
Qed.

Lemma emit_mapped_ident_line (st : TransState) (v : string) :
  line_started (out st) -> solid v = true ->
  line_started (out (emit_mapped_ident st v)).
Proof.
  intros Hl Hv. unfold emit_mapped_ident.
  destruct (dict_get KEYWORDS_MAP v) as [m|] eqn:E;
    [|apply emit_text_line; assumption].
  destruct (keyword_spellings_solid _ _ E) as [Hm Ht]. rewrite Ht. cbn [out].
  destruct (emit_text_line (out st) m Hl Hm) as [H1 H2].
  destruct (str_in m NEED_SPACE_AFTER); [|exact H1].
  apply emit_space_line; assumption.
Qed.

(** What one step of the translation loop does to the finished lines. *)
Lemma translate_step_lines (st st' : TransState) (t : Token) :
  line_started (out st) -> solid_token t = true ->
  translate_step st t = Ok st' ->
  line_started (out st') /\
  (layout_kind t = false -> lines (out st') = lines (out st)) /\
  (lines (out st') = lines (out st) \/
   exists x, lines (out st') = lines (out st) ++ [x] /\
             indented_line (indent (out st)) x).
Proof.
  intros Hl Hsolid. destruct t as [k v l c].
  unfold solid_token, layout_kind, translate_step in *.
  cbn [kind value str_in existsb] in *.
  assert (Htext : solid v = true ->
            line_started (emit_text (out st) v) /\
            (false = false -> lines (emit_text (out st) v) = lines (out st)) /\
            (lines (emit_text (out st) v) = lines (out st) \/
             exists x, lines (emit_text (out st) v) = lines (out st) ++ [x] /\
                       indented_line (indent (out st)) x)).
  { intros Hv. destruct (emit_text_same (out st) v) as [_ Hsame].
    split; [apply emit_text_line; assumption|]. split; auto. }
  assert (Hnl : forall o, line_started o -> lines o = lines (out st) ->
            indent o = indent (out st) ->
            exists x, lines (newline o) = lines (out st) ++ [x] /\
                      indented_line (indent (out st)) x).
  { intros o Ho H1 H2. destruct (newline_line o Ho) as [x [Hx Hi]].
    exists x. rewrite Hx, H1, <- H2. auto. }
  case_kind k "NEWLINE".
  { intros H. injection H as <-. cbn [out].
    split; [apply line_started_fresh|]. split; [discriminate|].
    right. apply Hnl; auto. }
  case_kind k "SEMI".
  { intros H. injection H as <-. cbn [out].
    split; [apply line_started_fresh|]. split; [discriminate|].
    right. apply Hnl; auto. }
  case_kind k "LBRACE".
  { intros H. injection H as <-. cbn [out open_block newline lines].
    split; [apply line_started_fresh|]. split; [discriminate|]. right.
    destruct (pending_header st).
    - destruct (emit_text_same (out st) ":") as [H1 H2].
      destruct (emit_text_line (out st) ":" Hl eq_refl) as [H3 _].
      destruct (Hnl _ H3 H2 H1) as [x [Hx Hi]]. exists x. auto.
    - destruct (Hnl _ Hl eq_refl eq_refl) as [x [Hx Hi]]. exists x. auto. }
  case_kind k "RBRACE".
  { unfold close_block. destruct (indent (out st)) as [|d] eqn:Ed;
      [discriminate|].
    cbn [current lines indent need_indent].
    destruct Hl as [[Hn Hc]|[Hn [texts [Hc Hs]]]].
    - rewrite Hc. cbn [is_nil negb andb]. intros H. injection H as <-.
      cbn [out]. split; [left; auto|]. split; [discriminate|]. left. reflexivity.
    - rewrite Hc. cbn [is_nil negb andb]. rewrite concat_empty_cons, Ed.
      rewrite (strip_solid_truthy _ _ Hs).
      intros H. injection H as <-. cbn [out newline lines current].
      split; [apply line_started_fresh|]. split; [discriminate|]. right.
      eexists. split; [reflexivity|]. right.
      rewrite concat_empty_cons. apply rstrip_solid. exact Hs. }
  cbn [orb] in Hsolid.
  case_kind k "STRING".
  { intros H. injection H as <-. cbn [out]. apply Htext. exact Hsolid. }
  case_kind k "NUMBER".
  { intros H. injection H as <-. cbn [out]. apply Htext. exact Hsolid. }
  case_kind k "IDENT".
  { kind_eval. destruct (emit_mapped_ident_same st v) as [_ Hsame].
    pose proof (emit_mapped_ident_line st v Hl Hsolid) as Hline.
    destruct (String.eqb v "SENAO_OPERADOR" && just_closed_brace st);
      intros H; injection H as <-; cbn [out]; auto. }
  case_kind k "OP".
  { intros H. injection H as <-. cbn [out]. apply Htext. exact Hsolid. }
  case_kind k "LPAREN".
  { intros H. injection H as <-. cbn [out]. apply Htext. exact Hsolid. }
  case_kind k "RPAREN".
  { intros H. injection H as <-. cbn [out]. apply Htext. exact Hsolid. }
  case_kind k "LBRACK".
  { intros H. injection H as <-. cbn [out]. apply Htext. exact Hsolid. }
  case_kind k "RBRACK".
  { intros H. injection H as <-. cbn [out]. apply Htext. exact Hsolid. }
  case_kind k "COMMA".
  { intros H. injection H as <-. cbn [out]. apply Htext. exact Hsolid. }
  case_kind k "DOT".
  { intros H. injection H as <-. cbn [out]. apply Htext. exact Hsolid. }
  discriminate.
Qed.

Lemma translate_loop_line_started (toks : list Token) (st st' : TransState) :
  line_started (out st) -> forallb solid_token toks = true ->
  translate_loop st toks = Ok st' -> line_started (out st').
Proof.
  revert st. induction toks as [|t r IH]; intros st Hl Hs H.
  - injection H as <-. exact Hl.
  - simpl in Hs. apply andb_prop in Hs. destruct Hs as [Ht Hr].
    simpl in H. destruct (translate_step st t) as [st1|e] eqn:E;
      [|discriminate H].
    apply (IH st1); [|exact Hr|exact H].
    apply (translate_step_lines st st1 t Hl Ht E).
Qed.

(** X15: indentation follows the braces. When the values of the text
    tokens start with a character that is not whitespace, a token that is
    not NEWLINE, SEMI, LBRACE or RBRACE never finishes a line, and the line
    that a token finishes is empty or starts with four spaces for each [{]
    still open before that token (the [{] less the [}] read so far),
    followed by text that starts with a character that is not whitespace. *)
Theorem finished_line_indentation (pre : list Token) (t : Token)
  (st1 st2 : TransState) :
  forallb solid_token (pre ++ [t]) = true ->
  translate_loop trans_init pre = Ok st1 ->
  translate_step st1 t = Ok st2 ->
  (layout_kind t = false -> lines (out st2) = lines (out st1)) /\
  (lines (out st2) = lines (out st1) \/
   exists x,
     lines (out st2) = lines (out st1) ++ [x] /\
     indented_line (count_kind "LBRACE" pre - count_kind "RBRACE" pre) x).
Proof.
  intros Hs H1 H2. rewrite forallb_app in Hs. apply andb_prop in Hs.
  destruct Hs as [Hpre Ht]. cbn [forallb] in Ht. rewrite andb_true_r in Ht.
  assert (Hl : line_started (out st1)).
  { apply (translate_loop_line_started pre trans_init st1);
      [apply line_started_fresh|exact Hpre|exact H1]. }
  assert (Hd : indent (out st1) =
               count_kind "LBRACE" pre - count_kind "RBRACE" pre).
  { pose proof (translate_loop_spec pre trans_init) as Hp. rewrite H1 in Hp.
    destruct Hp as [_ [Hb _]]. apply brace_walk_count in Hb. simpl in Hb. lia. }
  destruct (translate_step_lines st1 st2 t Hl Ht H2) as [_ [Hsame Hline]].
  rewrite <- Hd. auto.
Qed.

Lemma finished_line_indentation_witness :
  (layout_kind (Tok "RBRACE" "}" 1 5) = false ->
   lines (out (MkTrans (MkEmitter [EmptyString; "    x"] [] 0 true) false true))
   = lines (out (MkTrans (MkEmitter [EmptyString] [spaces 4; "x"] 1 false)
                         false false))) /\
  (lines (out (MkTrans (MkEmitter [EmptyString; "    x"] [] 0 true) false true))
   = lines (out (MkTrans (MkEmitter [EmptyString] [spaces 4; "x"] 1 false)
                         false false)) \/
   exists x,
     lines (out (MkTrans (MkEmitter [EmptyString; "    x"] [] 0 true)
                         false true))
     = lines (out (MkTrans (MkEmitter [EmptyString] [spaces 4; "x"] 1 false)
                           false false)) ++ [x] /\
     indented_line
       (count_kind "LBRACE" [Tok "LBRACE" "{" 1 1; Tok "IDENT" "x" 1 3]
        - count_kind "RBRACE" [Tok "LBRACE" "{" 1 1; Tok "IDENT" "x" 1 3]) x).
Proof.
  apply (finished_line_indentation
           [Tok "LBRACE" "{" 1 1; Tok "IDENT" "x" 1 3] (Tok "RBRACE" "}" 1 5)).
  - reflexivity.
  - vm_compute. reflexivity.
  - vm_compute. reflexivity.
Defined.

Lemma starters_not_space (c : ascii) :
  isalpha c || Ascii.eqb c "_" || isdigit c || char_in c symbols
  || Ascii.eqb c dquote = true ->
  isspace c = false.
Proof.
  destruct c as [[] [] [] [] [] [] [] []]; vm_compute;
    intros H; (reflexivity || discriminate H).
Qed.

Lemma lexeme_ok_solid (t : Token) : lexeme_ok t = true -> solid_token t = true.
Proof.
  intros H. apply lexeme_ok_kind in H. unfold solid_token, layout_kind.
  destruct t as [k v l c]. cbn [kind value] in *.
  destruct H as [[-> _]|[[_ H]|[[_ H]|[[_ H]|[[_ [_ H]]|[ch [-> [H _]]]]]]]].
  - reflexivity.
  - apply orb_true_iff. right. unfold string_lexeme in H.
    destruct v as [|a r]; [discriminate H|].
    change (chars (String a r)) with (a :: chars r) in H.
    destruct (chars r); [discriminate H|].
    destruct (rev (a :: a0 :: l0)); [discriminate H|].
    apply andb_prop in H. destruct H as [H _]. simpl.
    rewrite (starters_not_space a); [reflexivity|].
    rewrite H. apply orb_true_r.
  - apply orb_true_iff. right. unfold ident_lexeme in H.
    apply andb_prop in H. destruct H as [H _].
    destruct v as [|a r]; [discriminate H|]. simpl in H.
    apply andb_prop in H. destruct H as [H _]. simpl.
    rewrite (starters_not_space a); [reflexivity|]. rewrite H. reflexivity.
  - apply orb_true_iff. right.
    destruct v as [|a r]; [discriminate H|]. simpl in H.
    apply andb_prop in H. destruct H as [H _].
    apply andb_prop in H. destruct H as [H _]. simpl.
    rewrite (starters_not_space a); [reflexivity|].
    rewrite H. rewrite !orb_true_r. reflexivity.
  - apply orb_true_iff. right. unfold str_in in H.
    apply existsb_exists in H. destruct H as [x [Hin Hx]].
    apply String.eqb_eq in Hx. subst x.
    unfold MULTI_CHAR_OPS, RELATIONALS in Hin. simpl in Hin.
    repeat (destruct Hin as [<-|Hin]; [reflexivity|]). destruct Hin.
  - apply orb_true_iff. right. simpl.
    rewrite (starters_not_space ch); [reflexivity|].
    rewrite H. rewrite !orb_true_r. reflexivity.
Qed.

(** X16: every token that [lex] returns is a layout token (NEWLINE, SEMI,
    LBRACE, RBRACE) or has a value that starts with a character that is not
    whitespace, so the indentation of the lines that [translate] finishes
    (X15) holds for every token sequence that comes from [lex]. *)
Theorem lexed_tokens_solid (source : string) (toks : list Token) :
  lex source = Some (Ok toks) -> forallb solid_token toks = true.
Proof.
  intros H. apply lex_tokens_lexeme_ok in H.
  rewrite forallb_forall in *. intros t Hin.
  apply lexeme_ok_solid. apply H. exact Hin.
Qed.

Lemma lexed_tokens_solid_witness : forallb solid_token lone_else = true.
Proof.
  apply (lexed_tokens_solid "SENAO_OPERADOR { }" lone_else).
  vm_compute. reflexivity.
Defined.

(** ** Headers, spaces and the final output *)

Lemma translate_step_pending (st st' : TransState) (t : Token) :
  pending_header st = true -> String.eqb (kind t) "LBRACE" = false ->
  translate_step st t = Ok st' -> pending_header st' = true.
Proof.
  intros Hp Hk. destruct t as [k v l c]. unfold translate_step.
  cbn [kind value str_in existsb] in *. rewrite Hk.
  destruct (String.eqb k "NEWLINE" || String.eqb k "SEMI").
  { intros H. injection H as <-. exact Hp. }
  destruct (String.eqb k "RBRACE").
  { destruct (close_block (out st)); [|discriminate].
    intros H. injection H as <-. exact Hp. }
  destruct (String.eqb k "STRING" || (String.eqb k "NUMBER" || false)).
  { intros H. injection H as <-. exact Hp. }
  destruct (String.eqb k "IDENT").
  { destruct (String.eqb v "SENAO_OPERADOR" && just_closed_brace st);
      intros H; injection H as <-; [reflexivity|].
    cbn [pending_header]. unfold emit_mapped_ident.
    destruct (dict_get KEYWORDS_MAP v) as [m|]; [|exact Hp].
    destruct (truthy m); [|exact Hp]. cbn [pending_header].
    destruct (str_in m HEADER_TOKENS); [reflexivity|exact Hp]. }
  destruct (String.eqb k "OP").
  { intros H. injection H as <-. exact Hp. }
  match goal with |- context [if ?b then _ else _] => destruct b end;
    [|discriminate].
  intros H. injection H as <-. exact Hp.
Qed.

Lemma translate_loop_pending (toks : list Token) (st st' : TransState) :
  pending_header st = true -> count_kind "LBRACE" toks = 0 ->
  translate_loop st toks = Ok st' -> pending_header st' = true.
Proof.
  revert st. induction toks as [|t r IH]; intros st Hp Hc H.
  - injection H as <-. exact Hp.
  - rewrite count_kind_cons in Hc. simpl in H.
    destruct (translate_step st t) as [st1|e] eqn:E; [|discriminate H].
    destruct (String.eqb (kind t) "LBRACE") eqn:Ek; [simpl in Hc; lia|].
    apply (IH st1); [|simpl in Hc; exact Hc|exact H].
    apply (translate_step_pending st st1 t Hp Ek E).
Qed.

Lemma rstrip_colon (p : string) : rstrip (p ++ ":") = (p ++ ":")%string.
Proof.
  unfold rstrip. rewrite chars_append, rev_app_distr.
  change (rev (chars ":")) with [":"%char]. cbn [app drop_while].
  change (isspace ":") with false. cbv beta iota.
  cbn [rev]. rewrite rev_involutive, str_app, str_chars. reflexivity.
Qed.

(** X17: a header keyword waits for its brace. Once [pending_header] is
    set it stays set over every token that is not an LBRACE (newlines
    included), and the next LBRACE finishes the line under construction
    with a colon at its end: the pieces written so far, after the
    indentation if that is still to be written, are joined, the colon is
    put after them, and this line is added to the finished lines; no line
    is left under construction, the flag is cleared, one more level of
    depth is open, and nothing else of the state changes. *)
Theorem header_colon_at_next_brace (st st1 : TransState) (toks : list Token)
  (lb : Token) :
  pending_header st = true -> count_kind "LBRACE" toks = 0 ->
  translate_loop st toks = Ok st1 -> kind lb = "LBRACE" ->
  pending_header st1 = true /\
  translate_step st1 lb =
    Ok (MkTrans
          (MkEmitter
             (lines (out st1)
              ++ [(String.concat EmptyString
                     (current (out st1)
                      ++ (if need_indent (out st1)
                          then [spaces (indent (out st1) * 4)] else []))
                   ++ ":")%string])
             [] (indent (out st1) + 1) true)
          false (just_closed_brace st1)).
Proof.
  intros Hp Hc Hl Hk.
  pose proof (translate_loop_pending toks st st1 Hp Hc Hl) as Hp1.
  split; [exact Hp1|].
  unfold translate_step. rewrite Hk, Hp1. kind_eval.
  unfold open_block, newline, emit_text, _emit_indent_if_needed.
  destruct (need_indent (out st1));
    cbn [lines current indent need_indent];
    [|rewrite app_nil_r];
    rewrite concat_empty_snoc, rstrip_colon; reflexivity.
Qed.

Lemma header_colon_at_next_brace_witness :
  pending_header
    (MkTrans (MkEmitter [] [EmptyString; "def"; " "; "f"; "("; ")"] 0 false)
             true false) = true /\
  translate_step
    (MkTrans (MkEmitter [] [EmptyString; "def"; " "; "f"; "("; ")"] 0 false)
             true false)
    (Tok "LBRACE" "{" 1 14) =
    Ok (MkTrans (MkEmitter ["def f():"] [] 1 true) false false).
Proof.
  apply (header_colon_at_next_brace
           (MkTrans (MkEmitter [] [EmptyString; "def"; " "] 0 false) true false)
           (MkTrans
              (MkEmitter [] [EmptyString; "def"; " "; "f"; "("; ")"] 0 false)
              true false)
           [Tok "IDENT" "f" 1 10; Tok "LPAREN" "(" 1 11;
            Tok "RPAREN" ")" 1 12]
           (Tok "LBRACE" "{" 1 14)).
  - reflexivity.
  - reflexivity.
  - vm_compute. reflexivity.
  - reflexivity.
Defined.

(** The header line of a function from its tokens on: the keyword, the
    name and the parentheses stay on the line under construction until the
    brace closes the line with the colon. *)
Example header_line_with_colon :
  translate [Tok "IDENT" "OPERACAO" 1 1; Tok "IDENT" "f" 1 10;
             Tok "LPAREN" "(" 1 11; Tok "RPAREN" ")" 1 12;
             Tok "LBRACE" "{" 1 14; Tok "RBRACE" "}" 1 15] =
  Ok (String.append "def f():" (char_str nl)).
Proof. vm_compute. reflexivity. Qed.



Lemma drop_while_idempotent {A : Type} (p : A -> bool) (l : list A) :
  drop_while p (drop_while p l) = drop_while p l.
Proof.
  pose proof (drop_while_head p l) as H.
  destruct (drop_while p l) as [|x r]; [reflexivity|].
  simpl. rewrite H. reflexivity.
Qed.

(** X19: [get_output] can be asked again. The first call finishes the line
    under construction, if there is one, as a line of its own after the
    finished lines, drops the empty lines at the end of these lines and
    returns the lines kept, each followed by a newline character (a lone
    newline when none is kept); it leaves an emitter that holds the lines
    kept, no line under construction and the same indentation depth. A
    second call on that emitter returns the same text and leaves the same
    emitter. *)
Theorem get_output_again (e : Emitter) :
  (exists kept n,
     flushed_lines e = kept ++ repeat EmptyString n /\
     (forall l0 x, kept = l0 ++ [x] -> x <> EmptyString) /\
     get_output e =
       ((String.concat (char_str nl) kept ++ char_str nl)%string,
        MkEmitter kept [] (indent e)
                  (if is_nil (current e) then need_indent e else true))) /\
  get_output (snd (get_output e)) = get_output e /\
  current (snd (get_output e)) = [] /\
  indent (snd (get_output e)) = indent e.
Proof.
  assert (Hc : current (snd (get_output e)) = []).
  { unfold get_output. cbn [snd current].
    destruct (current e) eqn:E; cbn [is_nil negb]; [exact E|reflexivity]. }
  split; [apply get_output_exact|].
  split; [|split; [exact Hc|apply get_output_indent]].
  unfold get_output at 1. rewrite Hc. cbn [is_nil negb].
  unfold get_output. cbn [fst snd lines current indent need_indent].
  unfold pop_blank_lines. rewrite rev_involutive, drop_while_idempotent.
  reflexivity.
Qed.

(** An emitter with an unfinished line after two empty lines, and one
    whose last lines are empty. *)
Example get_output_flushes :
  get_output (MkEmitter ["a"; EmptyString; EmptyString] ["  b"; " "] 1 false) =
  (String "a" (String nl (String nl (String nl (String.append "  b" (char_str nl))))),
   MkEmitter ["a"; EmptyString; EmptyString; "  b"] [] 1 true).
Proof. vm_compute. reflexivity. Qed.

Example get_output_drops_empty_lines :
  get_output (MkEmitter ["a"; EmptyString; EmptyString] [] 0 true) =
  (String "a" (char_str nl), MkEmitter ["a"] [] 0 true).
Proof. vm_compute. reflexivity. Qed.
